(** * A shallow embedding of the ESLint language server (eslint-server/src/server.ts)

    The development follows the source file top to bottom: the data model
    (problems, diagnostics, auto fixes), the diagnostic converter, the fix
    registry, the [Fixes] resolver class, the error classifiers and the
    validation pipeline with its event handlers.

    Modelling conventions.
    - JavaScript numbers that hold line numbers, columns, character offsets
      and document versions are integers; they are modelled as [Z].
    - JavaScript strings are modelled as [string]; a character stands for one
      code unit below 256.
    - A property that may be [null] or [undefined] is an [option].
    - A thrown value is an error object, or [null] or [undefined]
      ([Thrown]); reading a property of the latter two raises a TypeError.
    - An object used as a dictionary whose key order is observed through
      [Object.keys] is an insertion-ordered association list ([JSMap]); the
      other dictionaries are [gmap]s.
    - Module-level mutable variables are the fields of one [Server] record,
      threaded explicitly; messages sent over the connection are appended to
      its [outbox]. *)

From Stdlib Require Import ZArith Lia List Ascii String Permutation Sorted.
From stdpp Require Import base option list strings pretty sorting gmap.

Local Open Scope Z_scope.
Local Open Scope string_scope.

(** ** Interfaces of the source (lines 26-128) *)

(** [interface ESLintError extends Error]: only [message] and
    [messageTemplate] are read.  [None] for [message] stands for an error
    whose [message] is not a string. *)
Record ESLintError := {
  err_messageTemplate : option string;
  err_message : option string
}.

(** [enum Status { ok = 1, warn = 2, error = 3 }]; the values are written
    [Status.ok], [Status.warn] and [Status.error] as in the source. *)
Module Status.
Inductive t := ok | warn | error.

Definition code (s : t) : Z :=
  match s with ok => 1 | warn => 2 | error => 3 end.
End Status.

Global Instance Status_eq_dec : EqDecision Status.t.
Proof. solve_decision. Defined.

(** [interface ESLintAutoFixEdit { range: [number, number]; text: string }] *)
Record ESLintAutoFixEdit := {
  range : Z * Z;
  text : string
}.

(** [interface ESLintProblem]; [ruleId] is [null] for problems that no rule
    reports, the end position and the fix are optional
    ([fix_] is the source's [fix], a reserved word here). *)
Record ESLintProblem := {
  line : Z;
  column : Z;
  endLine : option Z;
  endColumn : option Z;
  severity : Z;
  ruleId : option string;
  message : string;
  fix_ : option ESLintAutoFixEdit
}.

(** [interface ESLintDocumentReport] and [interface ESLintReport], with the
    shapes that [validate] tests for: a missing [messages] array, a [null]
    entry in it, a missing report. *)
Record ESLintDocumentReport := {
  messages : option (list (option ESLintProblem))
}.

Record ESLintReport := {
  results : option (list ESLintDocumentReport)
}.

(** The options handed to [new CLIEngine(options)] are of type [any] in the
    source; they are kept as an uninterpreted text. *)
Definition Options := string.

(** A thrown JavaScript value ([error: any] where it is caught).  [null]
    and [undefined] have no properties: reading one of them raises a
    TypeError.  Every other value is read through [message] and
    [messageTemplate] only, so it is an [ESLintError]; a thrown primitive
    has neither property. *)
Inductive Nullish := js_null | js_undefined.

Inductive Thrown :=
  | thrown (e : ESLintError)
  | nullish (v : Nullish).

Coercion thrown : ESLintError >-> Thrown.

Global Instance Nullish_eq_dec : EqDecision Nullish.
Proof. solve_decision. Defined.

Global Instance ESLintError_eq_dec : EqDecision ESLintError.
Proof. solve_decision. Defined.

Global Instance Thrown_eq_dec : EqDecision Thrown.
Proof. solve_decision. Defined.

(** A value, or a thrown JavaScript value. *)
Inductive Completion (A : Type) :=
  | Normal (a : A)
  | Throw (e : Thrown).
Arguments Normal {A} a.
Arguments Throw {A} e.

Global Instance Completion_eq_dec {A} `{EqDecision A} : EqDecision (Completion A).
Proof. solve_decision. Defined.

Definition TypeError (msg : string) : ESLintError :=
  {| err_messageTemplate := None; err_message := Some msg |}.

(** [value.property] for a caught value: the field of an error, a TypeError
    for [null] and [undefined]. *)
Definition cannot_read (property : string) (v : Nullish) : string :=
  "Cannot read property '" +:+ property +:+ "' of "
    +:+ match v with js_null => "null" | js_undefined => "undefined" end.

Definition get_property {A} (property : string) (field : ESLintError -> A)
    (value : Thrown) : Completion A :=
  match value with
  | thrown e => Normal (field e)
  | nullish v => Throw (TypeError (cannot_read property v))
  end.

(** [interface CLIEngine] and [interface ESLintModule]: the constructor and
    [executeOnText] may both throw; the optional [file] argument of
    [executeOnText] may be [undefined]. *)
Record CLIEngine := {
  executeOnText : string -> option string -> Completion (option ESLintReport)
}.

Record ESLintModule := {
  new_CLIEngine : Options -> Completion CLIEngine
}.

(** ** The language-server protocol types that the source uses *)

(** [DiagnosticSeverity.Error = 1], [DiagnosticSeverity.Warning = 2]. *)
Inductive DiagnosticSeverity := Error | Warning.

Definition DiagnosticSeverity_code (s : DiagnosticSeverity) : Z :=
  match s with Error => 1 | Warning => 2 end.

Record Position := {
  pos_line : Z;
  pos_character : Z
}.

Record Range := {
  range_start : Position;
  range_end : Position
}.

Record Diagnostic := {
  diag_message : string;
  diag_severity : DiagnosticSeverity;
  diag_source : string;
  diag_range : Range;
  diag_code : option string
}.

(** [TextDocument]: its properties and its methods [getText()] and
    [positionAt(offset)]. *)
Record TextDocument := {
  uri : string;
  languageId : string;
  version : Z;
  getText : string;
  positionAt : Z -> Position
}.

Record TextEdit := {
  te_range : Range;
  newText : string
}.

Record Command := {
  cmd_title : string;
  cmd_command : string;
  cmd_uri : string;
  cmd_documentVersion : Z;
  cmd_edits : list TextEdit
}.

(** ** Diagnostic converter (lines 130-148 and 176-186) *)

Definition convertSeverity (severity : Z) : DiagnosticSeverity :=
  if decide (severity = 1) then Warning
  else if decide (severity = 2) then Error
  else Error.

(** Template-literal rendering of a nullable string: [null] prints as the
    text null. *)
Definition render_nullable (s : option string) : string :=
  match s with Some s => s | None => "null" end.

Definition makeDiagnostic (problem : ESLintProblem) : Diagnostic :=
  let message :=
    match ruleId problem with
    | Some r => message problem +:+ " (" +:+ r +:+ ")"
    | None => message problem
    end in
  let startLine := Z.max 0 (line problem - 1) in
  let startChar := Z.max 0 (column problem - 1) in
  let endLine :=
    match endLine problem with
    | Some l => Z.max 0 (l - 1)
    | None => startLine
    end in
  let endChar :=
    match endColumn problem with
    | Some c => Z.max 0 (c - 1)
    | None => startChar
    end in
  {| diag_message := message;
     diag_severity := convertSeverity (severity problem);
     diag_source := "eslint";
     diag_range :=
       {| range_start := {| pos_line := startLine; pos_character := startChar |};
          range_end := {| pos_line := endLine; pos_character := endChar |} |};
     diag_code := ruleId problem |}.

(** [interface AutoFix] (lines 150-155); [autofix_ruleId] is its [ruleId]. *)
Record AutoFix := {
  label : string;
  documentVersion : Z;
  autofix_ruleId : string;
  edit : ESLintAutoFixEdit
}.

(** ** Objects used as dictionaries

    [interface Map<V> { [key: string]: V }], created with
    [Object.create(null)]: no inherited properties, keys enumerated by
    [Object.keys] in insertion order (no key of the registry is an array
    index).  Assigning to a present key keeps its place. *)
Definition JSMap (V : Type) := list (string * V).

Fixpoint jm_get {V} (k : string) (m : JSMap V) : option V :=
  match m with
  | [] => None
  | (k', v) :: m' => if decide (k = k') then Some v else jm_get k m'
  end.

Fixpoint jm_set {V} (k : string) (v : V) (m : JSMap V) : JSMap V :=
  match m with
  | [] => [(k, v)]
  | (k', v') :: m' =>
      if decide (k = k') then (k, v) :: m' else (k', v') :: jm_set k v m'
  end.

Definition Object_keys {V} (m : JSMap V) : list string := map fst m.

(** Every map of the program is built from the empty object by assignments,
    so its keys are pairwise distinct. *)
Definition jm_wf {V} (m : JSMap V) : Prop := NoDup (Object_keys m).

(** ** The key of a diagnostic (lines 157-160)

    [pretty] prints an integer in decimal, as the template literal does for
    the integers below 10^21. *)

Definition computeKey (diagnostic : Diagnostic) : string :=
  let range := diag_range diagnostic in
  "[" +:+ pretty (pos_line (range_start range)) +:+ ","
      +:+ pretty (pos_character (range_start range)) +:+ ","
      +:+ pretty (pos_line (range_end range)) +:+ ","
      +:+ pretty (pos_character (range_end range)) +:+ "]-"
      +:+ render_nullable (diag_code diagnostic).

(** ** Promises, messages and the server state *)

(** The settled value of a promise.  When its callbacks run is decided by
    the scheduler ([run_job] below). *)
Inductive Thenable (A : Type) :=
  | Fulfilled (a : A)
  | Rejected (e : Thrown).
Arguments Fulfilled {A} a.
Arguments Rejected {A} e.

(** What the server sends over the connection. *)
Inductive Message :=
  | SendDiagnostics (uri : string) (diagnostics : list Diagnostic)
  | StatusNotification (state : Status.t)
  | NoConfigRequest (message : string) (document_uri : string)
  | ConsoleWarn (message : string)
  | ShowInformationMessage (message : string)
  | ShowErrorMessage (message : string).

(** [ErrorMessageTracker] of vscode-languageserver: a count per message;
    [sendErrors] shows every message once, in the order of the keys (taken
    here as the order of the first [add], as for messages that are not
    array indices). *)
Definition ErrorMessageTracker := JSMap Z.

(** The local variables of one call of [validateMany], shared by the
    callbacks of that call: [tracker], [status], and the state of
    [Promise.all(promises)]: how many attempts it still waits for and
    whether it has settled. *)
Record Batch := {
  tracker : ErrorMessageTracker;
  status : option Status.t;
  waiting : nat;
  settled : bool
}.

(** A callback registered with [then] on a library promise and not yet run. *)
Inductive Job :=
  | SingleJob (document : TextDocument) (library : Thenable (option ESLintModule))
  | ManyJob (batch : nat) (document : TextDocument)
            (library : Thenable (option ESLintModule)).

Inductive RunValues := onType | onSave.

Global Instance RunValues_eq_dec : EqDecision RunValues.
Proof. solve_decision. Defined.

(** [interface Settings], reduced to what the server reads:
    [settings.eslint.run] and [settings.eslint.options]. *)
Record ESLintSettings := {
  run : RunValues;
  eslint_options : option Options
}.

Record Settings := {
  eslint : option ESLintSettings
}.

(** The module-level variables of the server (lines 162, 199-214, 339, 365),
    the connection's outgoing messages and the pending callbacks. *)
Record Server := {
  codeActions : gmap string (JSMap AutoFix);
  settings : option Settings;
  options : Options;
  documents : list TextDocument;
  document2Library : gmap string (Thenable (option ESLintModule));
  noConfigReported : gmap string ESLintModule;
  configErrorReported : gmap string ESLintModule;
  outbox : list Message;
  pending : list Job;
  batches : list Batch
}.

Definition set_codeActions (f : gmap string (JSMap AutoFix) -> gmap string (JSMap AutoFix))
    (s : Server) : Server :=
  {| codeActions := f (codeActions s); settings := settings s;
     options := options s; documents := documents s;
     document2Library := document2Library s;
     noConfigReported := noConfigReported s;
     configErrorReported := configErrorReported s;
     outbox := outbox s; pending := pending s; batches := batches s |}.

Definition set_settings (v : option Settings) (o : Options) (s : Server) : Server :=
  {| codeActions := codeActions s; settings := v;
     options := o; documents := documents s;
     document2Library := document2Library s;
     noConfigReported := noConfigReported s;
     configErrorReported := configErrorReported s;
     outbox := outbox s; pending := pending s; batches := batches s |}.

Definition set_document2Library
    (f : gmap string (Thenable (option ESLintModule)) ->
         gmap string (Thenable (option ESLintModule)))
    (s : Server) : Server :=
  {| codeActions := codeActions s; settings := settings s;
     options := options s; documents := documents s;
     document2Library := f (document2Library s);
     noConfigReported := noConfigReported s;
     configErrorReported := configErrorReported s;
     outbox := outbox s; pending := pending s; batches := batches s |}.

Definition set_noConfigReported
    (f : gmap string ESLintModule -> gmap string ESLintModule) (s : Server) : Server :=
  {| codeActions := codeActions s; settings := settings s;
     options := options s; documents := documents s;
     document2Library := document2Library s;
     noConfigReported := f (noConfigReported s);
     configErrorReported := configErrorReported s;
     outbox := outbox s; pending := pending s; batches := batches s |}.

Definition set_configErrorReported
    (f : gmap string ESLintModule -> gmap string ESLintModule) (s : Server) : Server :=
  {| codeActions := codeActions s; settings := settings s;
     options := options s; documents := documents s;
     document2Library := document2Library s;
     noConfigReported := noConfigReported s;
     configErrorReported := f (configErrorReported s);
     outbox := outbox s; pending := pending s; batches := batches s |}.

Definition set_outbox (f : list Message -> list Message) (s : Server) : Server :=
  {| codeActions := codeActions s; settings := settings s;
     options := options s; documents := documents s;
     document2Library := document2Library s;
     noConfigReported := noConfigReported s;
     configErrorReported := configErrorReported s;
     outbox := f (outbox s); pending := pending s; batches := batches s |}.

Definition set_pending (f : list Job -> list Job) (s : Server) : Server :=
  {| codeActions := codeActions s; settings := settings s;
     options := options s; documents := documents s;
     document2Library := document2Library s;
     noConfigReported := noConfigReported s;
     configErrorReported := configErrorReported s;
     outbox := outbox s; pending := f (pending s); batches := batches s |}.

Definition set_batches (f : list Batch -> list Batch) (s : Server) : Server :=
  {| codeActions := codeActions s; settings := settings s;
     options := options s; documents := documents s;
     document2Library := document2Library s;
     noConfigReported := noConfigReported s;
     configErrorReported := configErrorReported s;
     outbox := outbox s; pending := pending s; batches := f (batches s) |}.

(** ** A state and exception monad for the handlers *)

Definition M (A : Type) : Type := Server -> Completion A * Server.

Definition ret {A} (a : A) : M A := fun s => (Normal a, s).

Definition bind {A B} (m : M A) (f : A -> M B) : M B :=
  fun s =>
    match m s with
    | (Normal a, s') => f a s'
    | (Throw e, s') => (Throw e, s')
    end.

Definition throw {A} (e : Thrown) : M A := fun s => (Throw e, s).

Definition gets {A} (f : Server -> A) : M A := fun s => (Normal (f s), s).

Definition modify (f : Server -> Server) : M unit := fun s => (Normal tt, f s).

(** [try { body } catch (err) { handler }] *)
Definition try_catch {A} (body : M A) (handler : Thrown -> M A) : M A :=
  fun s =>
    match body s with
    | (Normal a, s') => (Normal a, s')
    | (Throw e, s') => handler e s'
    end.

(** Lifting a completion that does not touch the state. *)
Definition lift {A} (c : Completion A) : M A := fun s => (c, s).

(** Sequencing of completions, for the code that only reads the state. *)
Global Instance Completion_ret : MRet Completion := @Normal.
Global Instance Completion_bind : MBind Completion := fun A B f c =>
  match c with
  | Normal a => f a
  | Throw e => Throw e
  end.

(** [array.map(f)] for an [f] that may throw. *)
Fixpoint Array_map {A B} (f : A -> Completion B) (array : list A) : Completion (list B) :=
  match array with
  | [] => Normal []
  | x :: rest =>
      y ← f x;
      ys ← Array_map f rest;
      Normal (y :: ys)
  end.

(** The monad notations [x ← m; k] and [m;; k] are stdpp's. *)
Global Instance M_ret : MRet M := @ret.
Global Instance M_bind : MBind M := fun A B f m => bind m f.

(** [array.forEach(body)] and [for (x of array) body], without [break]. *)
Fixpoint forEach {A} (l : list A) (body : A -> M unit) : M unit :=
  match l with
  | [] => ret tt
  | x :: l' => body x;; forEach l' body
  end.

(** [array.push(x)] *)
Definition push {A} (array : list A) (x : A) : list A := (array ++ [x])%list.

Definition send (m : Message) : M unit :=
  modify (set_outbox (fun o => push o m)).

Definition exec {A} (m : M A) (s : Server) : Server := snd (m s).
Definition eval {A} (m : M A) (s : Server) : Completion A := fst (m s).

(** ** Regular expressions

    The fragment of JavaScript regular expressions that the source uses:
    literal text, one character of a class, a greedy star over a class,
    sequencing and capturing groups, matched by backtracking. *)
Inductive RegExp :=
  | RLit (s : string)
  | RClass (p : ascii -> bool)
  | RStar (p : ascii -> bool)
  | RSeq (r1 r2 : RegExp)
  | RGroup (r : RegExp).

Definition code_unit (c : ascii) : N := N_of_ascii c.

(** [\s] on code units below 256: tab, line feed, vertical tab, form feed,
    carriage return, space and no-break space. *)
Definition is_space (c : ascii) : bool :=
  let n := code_unit c in
  ((9 <=? n) && (n <=? 13) || (n =? 32) || (n =? 160))%N.

(** [.] matches everything but a line terminator. *)
Definition is_dot (c : ascii) : bool :=
  let n := code_unit c in
  negb ((n =? 10) || (n =? 13))%N.

Definition is_not_quote (c : ascii) : bool :=
  negb (code_unit c =? 39)%N.

Fixpoint strip_prefix (p s : string) : option string :=
  match p, s with
  | EmptyString, _ => Some s
  | String a p', String b s' => if decide (a = b) then strip_prefix p' s' else None
  | String _ _, EmptyString => None
  end.

(** What a match consumed: the text between the input [s] and the rest. *)
Definition consumed (s rest : string) : string :=
  substring 0 (String.length s - String.length rest) s.

Fixpoint star_match {R} (p : ascii -> bool) (s : string)
    (k : string -> option R) : option R :=
  match s with
  | String c s' =>
      if p c then
        match star_match p s' k with
        | Some r => Some r
        | None => k s
        end
      else k s
  | EmptyString => k s
  end.

Fixpoint re_match (r : RegExp) (s : string) (captures : list string)
    (k : string -> list string -> option (list string)) : option (list string) :=
  match r with
  | RLit l =>
      match strip_prefix l s with
      | Some rest => k rest captures
      | None => None
      end
  | RClass p =>
      match s with
      | String c rest => if p c then k rest captures else None
      | EmptyString => None
      end
  | RStar p => star_match p s (fun rest => k rest captures)
  | RSeq r1 r2 =>
      re_match r1 s captures (fun rest captures' => re_match r2 rest captures' k)
  | RGroup r1 =>
      re_match r1 s captures
        (fun rest captures' => k rest (push captures' (consumed s rest)))
  end.

(** [regexp.exec(s)] for a regular expression without flags: the leftmost
    match; the result holds the matched text followed by the captures. *)
Fixpoint RegExp_exec (r : RegExp) (s : string) : option (list string) :=
  match re_match r s [] (fun rest captures => Some (consumed s rest :: captures)) with
  | Some matches => Some matches
  | None =>
      match s with
      | String _ s' => RegExp_exec r s'
      | EmptyString => None
      end
  end.

Definition LF : string := String "010" EmptyString.
Definition DQUOTE : string := String "034" EmptyString.

(** One or more white-space characters, and a capturing group around a
    greedy run of non-terminator characters (written G below). *)
Definition re_spaces1 : RegExp := RSeq (RClass is_space) (RStar is_space).
Definition re_any_group : RegExp := RGroup (RStar is_dot).

(** The regular expression of line 388:
    [Cannot read config file:], spaces, G, a line feed, [Error:], spaces, G. *)
Definition re_cannot_read_config : RegExp :=
  RSeq (RLit "Cannot read config file:")
    (RSeq re_spaces1
      (RSeq re_any_group
        (RSeq (RLit (LF +:+ "Error:"))
          (RSeq re_spaces1 re_any_group)))).

(** The regular expression of line 393: G, a colon, a line feed, optional
    spaces, [Configuration for rule], a double quote, G, a double quote,
    [ is ]. *)
Definition re_rule_configuration : RegExp :=
  RSeq re_any_group
    (RSeq (RLit (":" +:+ LF))
      (RSeq (RStar is_space)
        (RSeq (RLit ("Configuration for rule " +:+ DQUOTE))
          (RSeq re_any_group (RLit (DQUOTE +:+ " is ")))))).

(** The regular expression of line 398: [Cannot find module], a quoted
    capturing group of non-quote characters, a line feed,
    [Referenced from:], spaces, G. *)
Definition re_cannot_find_module : RegExp :=
  RSeq (RLit "Cannot find module '")
    (RSeq (RGroup (RStar is_not_quote))
      (RSeq (RLit ("'" +:+ LF +:+ "Referenced from:"))
        (RSeq re_spaces1 re_any_group))).

(** [result.replace(/\r?\n/g, ' ')] *)
Fixpoint replace_line_breaks (s : string) : string :=
  match s with
  | EmptyString => EmptyString
  | String c s' =>
      if (code_unit c =? 10)%N then String " " (replace_line_breaks s')
      else
        match s' with
        | String c' s'' =>
            if ((code_unit c =? 13) && (code_unit c' =? 10))%N
            then String " " (replace_line_breaks s'')
            else String c (replace_line_breaks s')
        | EmptyString => String c EmptyString
        end
  end.

(** [s.substr(n)] for [0 <= n] *)
Definition substr (n : nat) (s : string) : string :=
  substring n (String.length s - n) s.

(** Template-literal rendering of a possibly [undefined] string. *)
Definition render_undefined (s : option string) : string :=
  match s with Some s => s | None => "undefined" end.

(** [supportedLanguages[languageId]] (lines 204-207).  The object is an
    object literal, so besides its two own keys the lookup also finds the
    properties inherited from [Object.prototype], all of them truthy. *)
Definition Object_prototype_properties : list string :=
  ["constructor"; "toString"; "toLocaleString"; "valueOf"; "hasOwnProperty";
   "isPrototypeOf"; "propertyIsEnumerable"; "__defineGetter__";
   "__defineSetter__"; "__lookupGetter__"; "__lookupSetter__"; "__proto__"].

Definition supportedLanguages (languageId : string) : bool :=
  bool_decide (languageId ∈ ["javascript"; "javascriptreact"])
  || bool_decide (languageId ∈ Object_prototype_properties).

(** [documents.get(uri)] and [documents.all()] of the documents manager. *)
Definition documents_get (uri0 : string) (docs : list TextDocument) : option TextDocument :=
  find (fun d => bool_decide (uri d = uri0)) docs.

(** ** The server, over the library functions it calls

    [Files.uriToFilePath] (vscode-languageserver; [undefined] for a URI that
    names no file), [Uri.file(path).toString()] (vscode-uri), [path.dirname]
    and [path.join] (Node.js) are not part of the program. *)
Section Server.

Variable uriToFilePath : string -> option string.
Variable Uri_file : string -> string.
Variable path_dirname : string -> string.
Variable path_join : string -> string -> string.

(** *** The fix registry (lines 162-174) *)

Definition recordCodeAction (document : TextDocument) (diagnostic : Diagnostic)
    (problem : ESLintProblem) : M unit :=
  match fix_ problem, ruleId problem with
  | Some fix0, Some rule =>
      if decide (rule = "") then ret tt
      else
        let uri := uri document in
        stored ← gets (fun s => codeActions s !! uri);
        let edits := match stored with Some edits => edits | None => [] end in
        modify (set_codeActions
          <[uri := jm_set (computeKey diagnostic)
                     {| label := "Fix this " +:+ rule +:+ " problem";
                        documentVersion := version document;
                        autofix_ruleId := rule;
                        edit := fix0 |} edits]>)
  | _, _ => ret tt
  end.

Definition ignoreTextDocument (document : TextDocument) : M bool :=
  library ← gets (fun s => document2Library s !! uri document);
  ret (negb (supportedLanguages (languageId document)) || negb (bool_decide (is_Some library))).

(** *** Sanitizing an error message (lines 301-313) *)

Definition getMessage (err : ESLintError) (document : TextDocument) : string :=
  match err_message err with
  | Some message =>
      let result := replace_line_breaks message in
      if bool_decide (is_Some (strip_prefix "CLI: " result)) then substr 5 result
      else result
  | None =>
      "An unknown error occured while validating file: "
        +:+ render_undefined (uriToFilePath (uri document))
  end.

(** [getMessage(err, document)] for a caught value: [err.message] is read
    first (line 303). *)
Definition getMessage_caught (err : Thrown) (document : TextDocument)
    : Completion string :=
  get_property "message" (fun e => getMessage e document) err.

(** *** Validating one document (lines 315-337) *)

Definition validate_problem (document : TextDocument)
    (diagnostics : list Diagnostic) (problem : option ESLintProblem)
    : M (list Diagnostic) :=
  match problem with
  | Some problem =>
      let diagnostic := makeDiagnostic problem in
      recordCodeAction document diagnostic problem;;
      ret (push diagnostics diagnostic)
  | None => ret diagnostics
  end.

Fixpoint validate_problems (document : TextDocument)
    (diagnostics : list Diagnostic) (problems : list (option ESLintProblem))
    : M (list Diagnostic) :=
  match problems with
  | [] => ret diagnostics
  | problem :: rest =>
      diagnostics' ← validate_problem document diagnostics problem;
      validate_problems document diagnostics' rest
  end.

Definition validate (document : TextDocument) (library : ESLintModule) : M unit :=
  options ← gets options;
  cli ← lift (new_CLIEngine library options);
  let content := getText document in
  let uri := uri document in
  modify (set_codeActions (delete uri));;
  report ← lift (executeOnText cli content (uriToFilePath uri));
  diagnostics ←
    match report with
    | Some {| results := Some (docReport :: _) |} =>
        match messages docReport with
        | Some problems => validate_problems document [] problems
        | None => ret []
        end
    | _ => ret []
    end;
  send (SendDiagnostics uri diagnostics).

(** *** The error classifiers (lines 339-415) *)

(** [error] is of type [any]: for [null] and [undefined] the read of
    [candidate.messageTemplate] raises a TypeError. *)
Definition isNoConfigFoundError (error : Thrown) : Completion bool :=
  messageTemplate ← get_property "messageTemplate" err_messageTemplate error;
  if bool_decide (messageTemplate = Some "no-config-found") then Normal true
  else
    message ← get_property "message" err_message error;
    Normal (bool_decide (message = Some "No ESLint configuration found.")).

Definition Handler : Type :=
  Thrown -> TextDocument -> ESLintModule -> M (option Status.t).

Definition tryHandleNoConfig : Handler := fun error document library =>
  noConfig ← lift (isNoConfigFoundError error);
  if negb noConfig then ret None
  else
    reported ← gets (fun s => noConfigReported s !! uri document);
    match reported with
    | None =>
        message ← lift (getMessage_caught error document);
        send (NoConfigRequest message (uri document));;
        modify (set_noConfigReported <[uri document := library]>)
    | Some _ => ret tt
    end;;
    ret (Some Status.warn).

Definition handleFileName (error : Thrown) (document : TextDocument)
    (library : ESLintModule) (filename : string) : M (option Status.t) :=
  reported ← gets (fun s => configErrorReported s !! filename);
  match reported with
  | None =>
      message ← lift (getMessage_caught error document);
      send (ConsoleWarn message);;
      docs ← gets documents;
      match documents_get (Uri_file filename) docs with
      | None =>
          message ← lift (getMessage_caught error document);
          send (ShowInformationMessage message)
      | Some _ => ret tt
      end;;
      modify (set_configErrorReported <[filename := library]>)
  | Some _ => ret tt
  end;;
  ret (Some Status.warn).

(** [matches && matches.length === 3] *)
Definition three_matches (matches : option (list string)) : option (list string) :=
  match matches with
  | Some l => if decide (length l = 3%nat) then Some l else None
  | None => None
  end.

Definition tryHandleConfigError : Handler := fun error document library =>
  message ← lift (get_property "message" err_message error);
  match message with
  | None => ret None
  | Some message =>
      if decide (message = "") then ret None
      else
        match three_matches (RegExp_exec re_cannot_read_config message) with
        | Some matches => handleFileName error document library (nth 1 matches "")
        | None =>
        match three_matches (RegExp_exec re_rule_configuration message) with
        | Some matches => handleFileName error document library (nth 1 matches "")
        | None =>
        match three_matches (RegExp_exec re_cannot_find_module message) with
        | Some matches => handleFileName error document library (nth 2 matches "")
        | None => ret None
        end end end
  end.

Definition showErrorMessage : Handler := fun error document library =>
  message ← lift (getMessage_caught error document);
  send (ShowErrorMessage message);;
  ret (Some Status.error).

Definition singleErrorHandlers : list Handler :=
  [tryHandleNoConfig; tryHandleConfigError; showErrorMessage].

Definition manyErrorHandlers : list Handler :=
  [tryHandleNoConfig; tryHandleConfigError].

(** *** Single-document validation (lines 417-437) *)

(** [for (let handler of handlers) { status = handler(...); if (status) break; }] *)
Fixpoint handler_loop (handlers : list Handler) (status : option Status.t)
    (err : Thrown) (document : TextDocument) (library : ESLintModule)
    : M (option Status.t) :=
  match handlers with
  | [] => ret status
  | handler :: rest =>
      status' ← handler err document library;
      match status' with
      | Some _ => ret status'
      | None => handler_loop rest status' err document library
      end
  end.

(** The callback that [validateSingle] registers on the library promise. *)
Definition validateSingle_then (document : TextDocument)
    (library : option ESLintModule) : M unit :=
  match library with
  | None => ret tt
  | Some library =>
      try_catch
        (validate document library;;
         send (StatusNotification Status.ok))
        (fun err =>
           status ← handler_loop singleErrorHandlers None err document library;
           let status := match status with Some st => st | None => Status.error end in
           send (StatusNotification status))
  end.

Definition validateSingle (document : TextDocument) : M unit :=
  promise ← gets (fun s => document2Library s !! uri document);
  match promise with
  | Some promise => modify (set_pending (fun q => push q (SingleJob document promise)))
  | None => throw (TypeError "Cannot read property 'then' of undefined")
  end.

(** *** Batch validation (lines 439-483) *)

Definition empty_batch : Batch :=
  {| tracker := []; status := None; waiting := 0; settled := false |}.

Definition get_batch (b : nat) : M Batch :=
  gets (fun s => default empty_batch (batches s !! b)).

Definition set_status (b : nat) (st : option Status.t) : M unit :=
  modify (set_batches (alter (fun x =>
    {| tracker := tracker x; status := st;
       waiting := waiting x; settled := settled x |}) b)).

(** [tracker.add(message)] *)
Definition tracker_add (b : nat) (message : string) : M unit :=
  modify (set_batches (alter (fun x =>
    let count := match jm_get message (tracker x) with Some c => c | None => 0 end in
    {| tracker := jm_set message (count + 1) (tracker x); status := status x;
       waiting := waiting x; settled := settled x |}) b)).

(** [tracker.sendErrors(connection)] *)
Definition tracker_sendErrors (b : nat) : M unit :=
  batch ← get_batch b;
  forEach (Object_keys (tracker batch)) (fun message => send (ShowErrorMessage message)).

(** The handler loop of [validateMany]: it assigns the variable [status] of
    the enclosing call at every iteration and answers [handled]. *)
Fixpoint many_handler_loop (b : nat) (handlers : list Handler)
    (err : Thrown) (document : TextDocument) (library : ESLintModule)
    : M bool :=
  match handlers with
  | [] => ret false
  | handler :: rest =>
      st ← handler err document library;
      set_status b st;;
      match st with
      | Some _ => ret true
      | None => many_handler_loop b rest err document library
      end
  end.

(** The callback that [validateMany] registers for one document. *)
Definition validateMany_then (b : nat) (document : TextDocument)
    (library : option ESLintModule) : M unit :=
  match library with
  | None => ret tt
  | Some library =>
      try_catch (validate document library)
        (fun err =>
           handled ← many_handler_loop b manyErrorHandlers err document library;
           if (handled : bool) then ret tt
           else
             set_status b (Some Status.error);;
             message ← lift (getMessage_caught err document);
             tracker_add b message)
  end.

(** The two callbacks on [Promise.all(promises)]. *)
Definition all_fulfilled (b : nat) : M unit :=
  tracker_sendErrors b;;
  batch ← get_batch b;
  let st := match status batch with Some st => st | None => Status.ok end in
  set_status b (Some st);;
  send (StatusNotification st).

Definition all_rejected (b : nat) : M unit :=
  tracker_sendErrors b;;
  send (ConsoleWarn "Validating all open documents failed.");;
  send (StatusNotification Status.error).

Definition settle (b : nat) : M unit :=
  modify (set_batches (alter (fun x =>
    {| tracker := tracker x; status := status x;
       waiting := waiting x; settled := true |}) b)).

(** [Promise.all]: fulfilled once every attempt is, rejected by the first
    attempt that is. *)
Definition attempt_fulfilled (b : nat) : M unit :=
  modify (set_batches (alter (fun x =>
    {| tracker := tracker x; status := status x;
       waiting := pred (waiting x); settled := settled x |}) b));;
  batch ← get_batch b;
  if settled batch then ret tt
  else if decide (waiting batch = 0%nat) then settle b;; all_fulfilled b
  else ret tt.

Definition attempt_rejected (b : nat) : M unit :=
  batch ← get_batch b;
  if settled batch then ret tt
  else settle b;; all_rejected b.

Definition validateMany_document (b : nat) (document : TextDocument) : M unit :=
  ignore ← ignoreTextDocument document;
  if (ignore : bool) then ret tt
  else
    promise ← gets (fun s => document2Library s !! uri document);
    match promise with
    | Some promise =>
        modify (set_pending (fun q => push q (ManyJob b document promise)));;
        modify (set_batches (alter (fun x =>
          {| tracker := tracker x; status := status x;
             waiting := S (waiting x); settled := settled x |}) b))
    | None => throw (TypeError "Cannot read property 'then' of undefined")
    end.

Definition validateMany (documents : list TextDocument) : M unit :=
  b ← gets (fun s => length (batches s));
  modify (set_batches (fun bs => push bs empty_batch));;
  forEach documents (validateMany_document b);;
  batch ← get_batch b;
  if decide (waiting batch = 0%nat) then settle b;; all_fulfilled b
  else ret tt.

(** *** Running a pending callback *)

Definition run_callback (job : Job) : M unit :=
  match job with
  | SingleJob document (Fulfilled library) => validateSingle_then document library
  | SingleJob document (Rejected _) => ret tt
  | ManyJob b document (Fulfilled library) =>
      fulfilled ← try_catch (validateMany_then b document library;; ret true)
                    (fun _ => ret false);
      if (fulfilled : bool) then attempt_fulfilled b else attempt_rejected b
  | ManyJob b document (Rejected _) => attempt_rejected b
  end.

Definition run_job (i : nat) : M unit :=
  queue ← gets pending;
  match queue !! i with
  | Some job => modify (set_pending (delete i));; run_callback job
  | None => ret tt
  end.

(** *** Document events (lines 262-284) *)

(** [settings.eslint.run], a [TypeError] while the settings are not there. *)
Definition settings_run : M RunValues :=
  settings ← gets settings;
  match settings with
  | Some {| eslint := Some eslint |} => ret (run eslint)
  | _ => throw (TypeError "Cannot read property 'run' of undefined")
  end.

Definition onDidChangeContent (document : TextDocument) : M unit :=
  run ← settings_run;
  ignore ← ignoreTextDocument document;
  if negb (bool_decide (run = onType)) || ignore then ret tt
  else validateSingle document.

Definition onDidSave (document : TextDocument) : M unit :=
  run ← settings_run;
  ignore ← ignoreTextDocument document;
  if negb (bool_decide (run = onSave)) || ignore then ret tt
  else validateSingle document.

Definition onDidClose (document : TextDocument) : M unit :=
  ignore ← ignoreTextDocument document;
  if (ignore : bool) then ret tt
  else
    modify (set_document2Library (delete (uri document)));;
    send (SendDiagnostics (uri document) []).

(** *** Configuration events (lines 485-514) *)

Definition onDidChangeConfiguration (params_settings : Settings) : M unit :=
  options ← gets options;
  let options :=
    match eslint params_settings with
    | Some eslint =>
        match eslint_options eslint with
        | Some o => o
        | None => "{}"
        end
    | None => options
    end in
  modify (set_settings (Some params_settings) options);;
  docs ← gets documents;
  validateMany docs.

Definition onDidChangeWatchedFiles_change (change_uri : string) : M unit :=
  match uriToFilePath change_uri with
  | None => throw (TypeError "Path must be a string. Received undefined")
  | Some fspath =>
      let dirname := path_dirname fspath in
      if decide (dirname = "") then ret tt
      else
        library ← gets (fun s => configErrorReported s !! fspath);
        match library with
        | Some library =>
            options ← gets options;
            cli ← lift (new_CLIEngine library options);
            try_catch
              (lift (executeOnText cli "" (Some (path_join dirname "___test___.js")));;
               modify (set_configErrorReported (delete fspath)))
              (fun _ => ret tt)
        | None => ret tt
        end
  end.

Definition onDidChangeWatchedFiles (changes : list string) : M unit :=
  modify (set_noConfigReported (fun _ => ∅));;
  forEach changes onDidChangeWatchedFiles_change;;
  docs ← gets documents;
  validateMany docs.

(** *** The fix resolver (lines 516-581) *)

Record Fixes := {
  edits : JSMap AutoFix;
  keys : list string
}.

(** [new Fixes(edits)] *)
Definition new_Fixes (edits : JSMap AutoFix) : Fixes :=
  {| edits := edits; keys := Object_keys edits |}.

(** [Fixes.overlaps]; [lastEdit] may be [undefined]. *)
Definition overlaps (lastEdit : option AutoFix) (newEdit : AutoFix) : bool :=
  match lastEdit with
  | Some lastEdit => bool_decide ((range (edit lastEdit)).2 > (range (edit newEdit)).1)
  | None => false
  end.

Definition isEmpty (this : Fixes) : bool :=
  bool_decide (length (keys this) = 0%nat).

(** [this.edits[this.keys[0]].documentVersion]: the property key of a
    missing [keys[0]] is the text undefined, and reading [documentVersion]
    of a missing entry is a [TypeError]. *)
Definition getDocumentVersion (this : Fixes) : Completion Z :=
  match jm_get (render_undefined (keys this !! 0%nat)) (edits this) with
  | Some editInfo => Normal (documentVersion editInfo)
  | None => Throw (TypeError "Cannot read property 'documentVersion' of undefined")
  end.

Definition getScoped (this : Fixes) (diagnostics : list Diagnostic) : list AutoFix :=
  fold_left
    (fun result diagnostic =>
       let key := computeKey diagnostic in
       match jm_get key (edits this) with
       | Some editInfo => push result editInfo
       | None => result
       end)
    diagnostics [].

(** The comparison function handed to [sort] (lines 549-561). *)
Definition compareFixes (a b : AutoFix) : Z :=
  let d := (range (edit a)).1 - (range (edit b)).1 in
  if decide (d ≠ 0) then d
  else if decide ((range (edit a)).2 = 0) then -1
  else if decide ((range (edit b)).2 = 0) then 1
  else (range (edit a)).2 - (range (edit b)).2.

(** [Array.prototype.sort(comparefn)], modelled as a stable insertion sort:
    every element in turn moves left past the elements [tmp] of the sorted
    prefix for which [comparefn(tmp, element) > 0].  [sorted_rev] holds the
    sorted prefix from right to left. *)
Fixpoint sort_insert {A} (comparefn : A -> A -> Z) (element : A)
    (sorted_rev : list A) : list A :=
  match sorted_rev with
  | [] => [element]
  | tmp :: rest =>
      if decide (comparefn tmp element > 0)
      then tmp :: sort_insert comparefn element rest
      else element :: tmp :: rest
  end.

Definition Array_sort {A} (comparefn : A -> A -> Z) (array : list A) : list A :=
  rev (fold_left (fun sorted_rev element => sort_insert comparefn element sorted_rev)
                 array []).

(** [this.keys.map(key => this.edits[key])]: every key was taken from
    [edits], so no lookup is [undefined]. *)
Definition getAllSorted (this : Fixes) : list AutoFix :=
  let result := omap (fun key => jm_get key (edits this)) (keys this) in
  Array_sort compareFixes result.

Definition getOverlapFree (this : Fixes) : list AutoFix :=
  let sorted := getAllSorted this in
  if decide (length sorted <= 1)%nat then sorted
  else
    match sorted with
    | [] => []
    | first :: rest =>
        fst (fold_left
          (fun '(result, last) current =>
             if negb (overlaps (Some last) current)
             then (push result current, current)
             else (result, last))
          rest ([first], first))
    end.

(** *** Code actions (lines 583-644) *)

(** [createTextEdit]; [textDocument] is [undefined] when the document is not
    open, and then [textDocument.positionAt] is a [TypeError]. *)
Definition createTextEdit (textDocument : option TextDocument) (editInfo : AutoFix)
    : Completion TextEdit :=
  match textDocument with
  | Some textDocument =>
      Normal {| te_range :=
                  {| range_start := positionAt textDocument (range (edit editInfo)).1;
                     range_end := positionAt textDocument (range (edit editInfo)).2 |};
                newText := text (edit editInfo) |}
  | None => Throw (TypeError "Cannot read property 'positionAt' of undefined")
  end.

(** [getLastEdit] *)
Definition getLastEdit (array : list AutoFix) : option AutoFix :=
  let length := length array in
  if decide (length = 0%nat) then None
  else array !! (length - 1)%nat.

(** The variables that the first loop of the handler assigns. *)
Record ScopedState := {
  scoped_result : list Command;
  scoped_documentVersion : Z;
  scoped_ruleId : option string
}.

Fixpoint scoped_loop (uri : string) (textDocument : option TextDocument)
    (scoped : list AutoFix) (st : ScopedState) : Completion ScopedState :=
  match scoped with
  | [] => Normal st
  | editInfo :: rest =>
      let documentVersion := documentVersion editInfo in
      let ruleId := Some (autofix_ruleId editInfo) in
      textEdit ← createTextEdit textDocument editInfo;
      scoped_loop uri textDocument rest
        {| scoped_result :=
             push (scoped_result st)
               {| cmd_title := label editInfo;
                  cmd_command := "eslint.applySingleFix";
                  cmd_uri := uri;
                  cmd_documentVersion := documentVersion;
                  cmd_edits := [textEdit] |};
           scoped_documentVersion := documentVersion;
           scoped_ruleId := ruleId |}
  end.

(** The variables that the second loop assigns. *)
Record SortedState := {
  sorted_documentVersion : Z;
  same : list AutoFix;
  all : list AutoFix
}.

Definition sorted_step (ruleId : option string) (st : SortedState)
    (editInfo : AutoFix) : SortedState :=
  let documentVersion :=
    if decide (sorted_documentVersion st = -1) then documentVersion editInfo
    else sorted_documentVersion st in
  let same :=
    if bool_decide (Some (autofix_ruleId editInfo) = ruleId)
       && negb (overlaps (getLastEdit (same st)) editInfo)
    then push (same st) editInfo else same st in
  let all :=
    if negb (overlaps (getLastEdit (all st)) editInfo)
    then push (all st) editInfo else all st in
  {| sorted_documentVersion := documentVersion; same := same; all := all |}.

Definition sorted_loop (ruleId : option string) (documentVersion : Z)
    (sorted : list AutoFix) : SortedState :=
  fold_left (sorted_step ruleId) sorted
    {| sorted_documentVersion := documentVersion; same := []; all := [] |}.

Definition codeActionCommands (uri : string) (edits : option (JSMap AutoFix))
    (textDocument : option TextDocument) (diagnostics : list Diagnostic)
    : Completion (list Command) :=
  match edits with
  | None => Normal []
  | Some edits =>
      let fixes := new_Fixes edits in
      if isEmpty fixes then Normal []
      else
        st ← scoped_loop uri textDocument (getScoped fixes diagnostics)
               {| scoped_result := []; scoped_documentVersion := -1;
                  scoped_ruleId := None |};
        let result := scoped_result st in
        let ruleId := scoped_ruleId st in
        if decide (0 < length result)%nat then
          let st2 := sorted_loop ruleId (scoped_documentVersion st) (getAllSorted fixes) in
          let documentVersion := sorted_documentVersion st2 in
          result ←
            (if decide (1 < length (same st2))%nat then
               textEdits ← Array_map (createTextEdit textDocument) (same st2);
               Normal (push result
                 {| cmd_title := "Fix all " +:+ render_undefined ruleId +:+ " problems";
                    cmd_command := "eslint.applySameFixes";
                    cmd_uri := uri;
                    cmd_documentVersion := documentVersion;
                    cmd_edits := textEdits |})
             else Normal result);
          (if decide (1 < length (all st2))%nat then
             textEdits ← Array_map (createTextEdit textDocument) (all st2);
             Normal (push result
               {| cmd_title := "Fix all auto-fixable problems";
                  cmd_command := "eslint.applyAllFixes";
                  cmd_uri := uri;
                  cmd_documentVersion := documentVersion;
                  cmd_edits := textEdits |})
           else Normal result)
        else Normal result
  end.

Definition onCodeAction (uri : string) (diagnostics : list Diagnostic)
    : M (list Command) :=
  edits ← gets (fun s => codeActions s !! uri);
  docs ← gets documents;
  lift (codeActionCommands uri edits (documents_get uri docs) diagnostics).

(** *** The all-fixes request (lines 646-678) *)

Record AllFixesResult := {
  result_documentVersion : Z;
  result_edits : list TextEdit
}.

Definition allFixes (edits : option (JSMap AutoFix))
    (textDocument : option TextDocument) : Completion (option AllFixesResult) :=
  match edits with
  | Some edits =>
      let fixes := new_Fixes edits in
      if negb (isEmpty fixes) then
        documentVersion ← getDocumentVersion fixes;
        textEdits ← Array_map (createTextEdit textDocument) (getOverlapFree fixes);
        Normal (Some {| result_documentVersion := documentVersion;
                        result_edits := textEdits |})
      else Normal None
  | None => Normal None
  end.

Definition onAllFixesRequest (uri : string) : M (option AllFixesResult) :=
  docs ← gets documents;
  edits ← gets (fun s => codeActions s !! uri);
  lift (allFixes edits (documents_get uri docs)).

(** *** The events the server reacts to

    Opening a document belongs to the library loader, which fills
    [document2Library]; it is not an event here.  [RunJob i] is the
    scheduler running the pending callback at position [i]. *)

Inductive Event :=
  | DidChangeContent (document : TextDocument)
  | DidSave (document : TextDocument)
  | DidClose (document : TextDocument)
  | DidChangeConfiguration (settings : Settings)
  | DidChangeWatchedFiles (changes : list string)
  | CodeAction (uri : string) (diagnostics : list Diagnostic)
  | AllFixesRequest (uri : string)
  | RunJob (i : nat).

Definition handle (e : Event) : M unit :=
  match e with
  | DidChangeContent document => onDidChangeContent document
  | DidSave document => onDidSave document
  | DidClose document => onDidClose document
  | DidChangeConfiguration settings => onDidChangeConfiguration settings
  | DidChangeWatchedFiles changes => onDidChangeWatchedFiles changes
  | CodeAction uri diagnostics => onCodeAction uri diagnostics;; ret tt
  | AllFixesRequest uri => onAllFixesRequest uri;; ret tt
  | RunJob i => run_job i
  end.

(** The state after an event; an error that escapes a handler leaves the
    changes made before it. *)
Definition step (s : Server) (e : Event) : Server := exec (handle e) s.

Definition run_events (s : Server) (events : list Event) : Server :=
  fold_left step events s.

(** ** The notions of the specification

    These definitions follow the words of the specification; the theorems
    below compare them with the program. *)

Definition start_offset (a : AutoFix) : Z := (range (edit a)).1.
Definition end_offset (a : AutoFix) : Z := (range (edit a)).2.

(** Position conversion: subtract one and floor at zero. *)
Definition convert_coordinate (c : Z) : Z :=
  if decide (1 <= c) then c - 1 else 0.

(** The order of the fix resolver: ascending start offset; with equal
    start offsets an edit whose end offset is 0 comes before one whose end
    offset is not; otherwise ascending end offset. *)
Definition sorts_before (a b : AutoFix) : Prop :=
  start_offset a < start_offset b
  ∨ (start_offset a = start_offset b
     ∧ ((end_offset a = 0 ∧ end_offset b ≠ 0)
        ∨ ((end_offset a = 0 ↔ end_offset b = 0) ∧ end_offset a <= end_offset b))).

(** The greedy left-to-right scan: keep the first edit, then keep an edit
    iff the end offset of the most recently kept edit is not greater than
    its start offset. *)
Fixpoint greedy_from (last : AutoFix) (l : list AutoFix) : list AutoFix :=
  match l with
  | [] => []
  | current :: rest =>
      if decide (end_offset last > start_offset current)
      then greedy_from last rest
      else current :: greedy_from current rest
  end.

Definition greedy (l : list AutoFix) : list AutoFix :=
  match l with
  | [] => []
  | first :: rest => first :: greedy_from first rest
  end.

(** Same-rule selection: the greedy scan that also rejects every edit of
    another rule. *)
Definition same_rule_selection (rule : string) (sorted : list AutoFix) : list AutoFix :=
  greedy (filter (fun e => autofix_ruleId e = rule) sorted).

(** Adjacent elements of a list of edits do not overlap. *)
Definition overlap_free (l : list AutoFix) : Prop :=
  ∀ (i : nat) (a b : AutoFix),
    l !! i = Some a → l !! S i = Some b → end_offset a <= start_offset b.

(** Every character of a string satisfies [P]. *)
Fixpoint string_forall (P : ascii → Prop) (s : string) : Prop :=
  match s with
  | EmptyString => True
  | String c s' => P c ∧ string_forall P s'
  end.

(** The number of no-config requests sent for a document. *)
Definition is_noConfigRequest (uri0 : string) (m : Message) : bool :=
  match m with
  | NoConfigRequest _ u => bool_decide (u = uri0)
  | _ => false
  end.

Definition noConfigRequests (uri0 : string) (o : list Message) : nat :=
  length (List.filter (is_noConfigRequest uri0) o).

(** Once a document is marked in [noConfigReported], going from [s] to [s']
    keeps the mark and sends no further no-config request for it. *)
Definition noConfig_quiet (uri0 : string) (s s' : Server) : Prop :=
  is_Some (noConfigReported s !! uri0) →
  is_Some (noConfigReported s' !! uri0)
  ∧ noConfigRequests uri0 (outbox s') = noConfigRequests uri0 (outbox s).

(** A computation takes every state to a state related to it by [R]. *)
Definition preserves (R : Server → Server → Prop) {A} (m : M A) : Prop :=
  ∀ s, R s (exec m s).

(** Every snapshot of the fix registry has pairwise distinct keys. *)
Definition registry_wf (s : Server) : Prop :=
  ∀ uri0 edits, codeActions s !! uri0 = Some edits → jm_wf edits.

Definition keeps_registry_wf (s s' : Server) : Prop :=
  registry_wf s → registry_wf s'.

(** ** Sample data for the examples *)

Definition sample_document (uri0 : string) : TextDocument :=
  {| uri := uri0; languageId := "javascript"; version := 1;
     getText := "var x";
     positionAt := fun offset => {| pos_line := 0; pos_character := offset |} |}.

(** A library whose engine always answers with [outcome]. *)
Definition sample_library (outcome : Completion (option ESLintReport)) : ESLintModule :=
  {| new_CLIEngine := fun _ => Normal {| executeOnText := fun _ _ => outcome |} |}.

Definition no_config_error : ESLintError :=
  {| err_messageTemplate := None;
     err_message := Some "No ESLint configuration found." |}.

Definition generic_error : ESLintError :=
  {| err_messageTemplate := None; err_message := Some "boom" |}.

Definition sample_fix (rule : string) (start_ end_ : Z) : AutoFix :=
  {| label := "Fix this " +:+ rule +:+ " problem"; documentVersion := 1;
     autofix_ruleId := rule;
     edit := {| range := (start_, end_); text := "" |} |}.

Definition sample_problem (rule : string) (line0 column0 start_ end_ : Z) : ESLintProblem :=
  {| line := line0; column := column0; endLine := None; endColumn := None;
     severity := 2; ruleId := Some rule; message := "Missing semicolon.";
     fix_ := Some {| range := (start_, end_); text := ";" |} |}.

Definition sample_report (problems : list ESLintProblem) : option ESLintReport :=
  Some {| results := Some [{| messages := Some (map Some problems) |}] |}.

(** The server with the given open documents and their libraries, nothing
    validated yet. *)
Definition sample_server (docs : list TextDocument)
    (libraries : list (string * Thenable (option ESLintModule))) : Server :=
  {| codeActions := ∅; settings := None; options := "{}"; documents := docs;
     document2Library := list_to_map libraries;
     noConfigReported := ∅; configErrorReported := ∅;
     outbox := []; pending := []; batches := [] |}.

Definition sample_uriToFilePath (uri0 : string) : option string :=
  strip_prefix "file://" uri0.

Definition sample_Uri_file (path : string) : string := "file://" +:+ path.

Definition sample_dirname (path : string) : string := "/".

Definition sample_join (a b : string) : string := a +:+ "/" +:+ b.

(** A diagnostic with a zero-width range, as the client sends it back in
    the context of a code-action request. *)
Definition sample_diagnostic (line0 character0 : Z) (code : string) : Diagnostic :=
  {| diag_message := "Missing semicolon. (" +:+ code +:+ ")";
     diag_severity := Error; diag_source := "eslint";
     diag_range :=
       {| range_start := {| pos_line := line0; pos_character := character0 |};
          range_end := {| pos_line := line0; pos_character := character0 |} |};
     diag_code := Some code |}.

Definition sample_snapshot : JSMap AutoFix :=
  [("[0,5,0,5]-semi", sample_fix "semi" 5 6);
   ("[1,2,1,2]-quotes", sample_fix "quotes" 20 25);
   ("[2,7,2,7]-semi", sample_fix "semi" 40 41);
   ("[0,4,0,4]-semi", sample_fix "semi" 4 6)].

(** ** Notions used by the further properties *)

(** The problems that [validate] walks through: the non-null entries of the
    [messages] of the first result of the report. *)
Definition report_problems (report : option ESLintReport) : list ESLintProblem :=
  match report with
  | Some {| results := Some (docReport :: _) |} =>
      match messages docReport with
      | Some problems => omap id problems
      | None => []
      end
  | _ => []
  end.

(** The registry entry that a problem gives rise to, if it has a fix and a
    rule id. *)
Definition recorded_fix (document : TextDocument) (problem : ESLintProblem)
    : option (string * AutoFix) :=
  match fix_ problem, ruleId problem with
  | Some fix0, Some rule =>
      if decide (rule = "") then None
      else Some (computeKey (makeDiagnostic problem),
                 {| label := "Fix this " +:+ rule +:+ " problem";
                    documentVersion := version document;
                    autofix_ruleId := rule;
                    edit := fix0 |})
  | _, _ => None
  end.

(** The snapshot that the problems of one report leave for a document. *)
Definition fixes_of (document : TextDocument) (problems : list ESLintProblem)
    : JSMap AutoFix :=
  fold_left
    (fun edits problem =>
       match recorded_fix document problem with
       | Some (key, fix0) => jm_set key fix0 edits
       | None => edits
       end)
    problems [].

(** The registry with the entry of a document replaced by a snapshot; the
    empty snapshot stands for no entry. *)
Definition with_snapshot (uri0 : string) (snapshot : JSMap AutoFix)
    (registry : gmap string (JSMap AutoFix)) : gmap string (JSMap AutoFix) :=
  match snapshot with
  | [] => delete uri0 registry
  | _ => <[uri0 := snapshot]> registry
  end.




(** The fix that a problem records under a given key, if it records one
    there. *)
Definition recorded_under (document : TextDocument) (key : string)
    (problem : ESLintProblem) : option AutoFix :=
  match recorded_fix document problem with
  | Some (key', fix0) => if decide (key = key') then Some fix0 else None
  | None => None
  end.

(** An edit whose start offset is not after its end offset. *)
Definition well_formed_edit (a : AutoFix) : Prop := start_offset a <= end_offset a.

(** Every edit of the list ends before every later one starts. *)
Definition pairwise_disjoint (l : list AutoFix) : Prop :=
  ∀ (i j : nat) (a b : AutoFix),
    (i < j)%nat → l !! i = Some a → l !! j = Some b →
    end_offset a <= start_offset b.

(** [TextEdit.replace(Range.create(positionAt(start), positionAt(end)), text)]
    for an open document. *)
Definition toTextEdit (textDocument : TextDocument) (editInfo : AutoFix) : TextEdit :=
  {| te_range :=
       {| range_start := positionAt textDocument (range (edit editInfo)).1;
          range_end := positionAt textDocument (range (edit editInfo)).2 |};
     newText := text (edit editInfo) |}.

(** The single-fix command of the code-action answer. *)
Definition single_fix_command (uri0 : string) (textDocument : TextDocument)
    (editInfo : AutoFix) : Command :=
  {| cmd_title := label editInfo;
     cmd_command := "eslint.applySingleFix";
     cmd_uri := uri0;
     cmd_documentVersion := documentVersion editInfo;
     cmd_edits := [toTextEdit textDocument editInfo] |}.

(** The job that [validateMany] registers for a document of batch [b], if
    the document is not ignored in state [s]. *)
Definition batch_job (b : nat) (s : Server) (document : TextDocument) : option Job :=
  if supportedLanguages (languageId document)
  then ManyJob b document <$> document2Library s !! uri document
  else None.

(** One more attempt to wait for. *)
Definition one_more (x : Batch) : Batch :=
  {| tracker := tracker x; status := status x;
     waiting := S (waiting x); settled := settled x |}.

(** [n] more attempts to wait for. *)
Definition more (n : nat) (x : Batch) : Batch :=
  {| tracker := tracker x; status := status x;
     waiting := n + waiting x; settled := settled x |}.

(** The batch of a call of [validateMany] that registered [n] attempts:
    with none, [Promise.all] has fulfilled at once and the batch has
    published ok. *)
Definition started_batch (n : nat) : Batch :=
  match n with
  | O => {| tracker := []; status := Some Status.ok; waiting := 0; settled := true |}
  | S _ => {| tracker := []; status := None; waiting := n; settled := false |}
  end.

(** The callback that [validateSingle] registers for a document that is
    not ignored. *)
Definition single_job (s : Server) (document : TextDocument) : option Job :=
  if supportedLanguages (languageId document)
  then SingleJob document <$> document2Library s !! uri document
  else None.

(** The state after a document event that validates on [trigger]. *)
Definition after_document_event (trigger : RunValues) (document : TextDocument)
    (s : Server) : Completion unit * Server :=
  match settings s with
  | Some {| eslint := Some eslint |} =>
      (Normal tt,
       if decide (run eslint = trigger)
       then match single_job s document with
            | Some job => set_pending (fun q => push q job) s
            | None => s
            end
       else s)
  | _ => (Throw (TypeError "Cannot read property 'run' of undefined"), s)
  end.

(** The text [s] does not go on with a character of the class [p]. *)
Definition stops (p : ascii -> bool) (s : string) : Prop :=
  match s with
  | String c _ => p c = false
  | EmptyString => True
  end.

(** A match succeeds with a result that satisfies [Q]. *)
Definition yields {R} (Q : R -> Prop) (o : option R) : Prop :=
  ∃ r, o = Some r ∧ Q r.

(** The result of [exec] has two captures and the file name at index [i]. *)
Definition captures_at (i : nat) (filename : string) (matches : list string) : Prop :=
  length matches = 3%nat ∧ nth i matches "" = filename.

(** A text that does not begin with white space. *)
Definition starts_black (s : string) : Prop :=
  match s with
  | String c _ => is_space c = false
  | EmptyString => False
  end.

(** The configuration files reported in [s] are still reported in [s']. *)
Definition config_marks_kept (s s' : Server) : Prop :=
  ∀ filename, is_Some (configErrorReported s !! filename) →
              is_Some (configErrorReported s' !! filename).

(** What the first report of a configuration error of [filename] sends. *)
Definition config_error_report (message filename : string)
    (docs : list TextDocument) : list Message :=
  ConsoleWarn message ::
  match documents_get (Uri_file filename) docs with
  | None => [ShowInformationMessage message]
  | Some _ => []
  end.

(** No configuration file is reported in [s'] that was not in [s]. *)
Definition config_marks_within (s s' : Server) : Prop :=
  configErrorReported s' ⊆ configErrorReported s.

(** The mark of the configuration file [filename] is in [s'] what it was
    in [s]. *)
Definition same_config_mark (filename : string) (s s' : Server) : Prop :=
  configErrorReported s' !! filename = configErrorReported s !! filename.

Definition same_noConfigReported (s s' : Server) : Prop :=
  noConfigReported s' = noConfigReported s.

(** * Properties *)

(** ** The diagnostic converter *)

Lemma convert_coordinate_max (c : Z) : Z.max 0 (c - 1) = convert_coordinate c.
Proof. unfold convert_coordinate. case_decide; lia. Qed.

Lemma convert_coordinate_nonneg (c : Z) : 0 <= convert_coordinate c.
Proof. unfold convert_coordinate. case_decide; lia. Qed.

(** C8. The diagnostic converter is a total function of the problem alone:
    severity 1 becomes Warning and every other severity Error; every
    coordinate is the 1-based one minus one, floored at zero; a missing end
    line or end column takes the converted start value; the message carries
    the rule id in parentheses when there is one; the source is eslint and
    the code is the rule id. *)
Theorem makeDiagnostic_converts (problem : ESLintProblem) :
  let d := makeDiagnostic problem in
  let r := diag_range d in
  diag_severity d = (if decide (severity problem = 1) then Warning else Error)
  ∧ pos_line (range_start r) = convert_coordinate (line problem)
  ∧ pos_character (range_start r) = convert_coordinate (column problem)
  ∧ pos_line (range_end r)
    = from_option convert_coordinate (pos_line (range_start r)) (endLine problem)
  ∧ pos_character (range_end r)
    = from_option convert_coordinate (pos_character (range_start r)) (endColumn problem)
  ∧ diag_message d
    = from_option (fun rule => message problem +:+ " (" +:+ rule +:+ ")")
        (message problem) (ruleId problem)
  ∧ diag_source d = "eslint"
  ∧ diag_code d = ruleId problem.
Proof.
  cbn -[String.app]. unfold convertSeverity.
  rewrite !convert_coordinate_max.
  repeat split; try reflexivity.
  - repeat case_decide; congruence.
  - destruct (endLine problem); cbn; [apply convert_coordinate_max | reflexivity].
  - destruct (endColumn problem); cbn; [apply convert_coordinate_max | reflexivity].
Qed.

(** No coordinate of a converted diagnostic is negative. *)
Lemma makeDiagnostic_nonneg (problem : ESLintProblem) :
  let r := diag_range (makeDiagnostic problem) in
  0 <= pos_line (range_start r) ∧ 0 <= pos_character (range_start r)
  ∧ 0 <= pos_line (range_end r) ∧ 0 <= pos_character (range_end r).
Proof.
  cbn. destruct (endLine problem), (endColumn problem); lia.
Qed.

(** A problem without an end position gives a zero-width range. *)
Lemma makeDiagnostic_zero_width (problem : ESLintProblem) :
  endLine problem = None → endColumn problem = None →
  range_end (diag_range (makeDiagnostic problem))
  = range_start (diag_range (makeDiagnostic problem)).
Proof. intros H1 H2. cbn. rewrite H1, H2. reflexivity. Qed.

(** Scenario A of the specification. *)
Example makeDiagnostic_scenario_A :
  makeDiagnostic
    {| line := 5; column := 3; endLine := None; endColumn := None;
       severity := 1; ruleId := Some "no-unused-vars";
       message := "'x' is defined but never used"; fix_ := None |}
  = {| diag_message := "'x' is defined but never used (no-unused-vars)";
       diag_severity := Warning;
       diag_source := "eslint";
       diag_range :=
         {| range_start := {| pos_line := 4; pos_character := 2 |};
            range_end := {| pos_line := 4; pos_character := 2 |} |};
       diag_code := Some "no-unused-vars" |}.
Proof. reflexivity. Qed.

(** ** Dictionaries *)

Lemma jm_get_set_eq {V} (k : string) (v : V) (m : JSMap V) :
  jm_get k (jm_set k v m) = Some v.
Proof.
  induction m as [|[k' v'] m IH]; cbn.
  - by rewrite decide_True.
  - destruct (decide (k = k')) as [->|Hne]; cbn.
    + by rewrite decide_True.
    + by rewrite decide_False.
Qed.

Lemma jm_get_set_ne {V} (k k' : string) (v : V) (m : JSMap V) :
  k ≠ k' → jm_get k' (jm_set k v m) = jm_get k' m.
Proof.
  intros Hne. induction m as [|[k0 v0] m IH]; cbn.
  - by rewrite decide_False.
  - destruct (decide (k = k0)) as [->|Hne0]; cbn.
    + by rewrite !decide_False.
    + destruct (decide (k' = k0)); [done | apply IH].
Qed.

Lemma jm_get_Some_key {V} (k : string) (v : V) (m : JSMap V) :
  jm_get k m = Some v → k ∈ Object_keys m.
Proof.
  induction m as [|[k' v'] m IH]; cbn; [done |].
  destruct (decide (k = k')) as [->|Hne]; intros H.
  - apply list_elem_of_here.
  - apply list_elem_of_further, IH, H.
Qed.

Lemma jm_get_None_key {V} (k : string) (m : JSMap V) :
  jm_get k m = None → k ∉ Object_keys m.
Proof.
  induction m as [|[k' v'] m IH]; cbn.
  - intros _ H. by apply elem_of_nil in H.
  - destruct (decide (k = k')) as [->|Hne]; [done |].
    intros H Hin. apply elem_of_cons in Hin as [Heq | Hin]; [done |].
    by apply IH.
Qed.

(** Assigning to a present key keeps the keys and their order. *)
Lemma jm_set_keys_present {V} (k : string) (v : V) (m : JSMap V) :
  is_Some (jm_get k m) → Object_keys (jm_set k v m) = Object_keys m.
Proof.
  induction m as [|[k' v'] m IH]; cbn.
  - intros [x Hx]. discriminate.
  - destruct (decide (k = k')) as [->|Hne]; cbn; [done |].
    intros H. f_equal. apply IH, H.
Qed.

(** Assigning to an absent key appends it. *)
Lemma jm_set_keys_absent {V} (k : string) (v : V) (m : JSMap V) :
  jm_get k m = None → Object_keys (jm_set k v m) = push (Object_keys m) k.
Proof.
  induction m as [|[k' v'] m IH]; cbn; [done |].
  destruct (decide (k = k')) as [->|Hne]; cbn; [done |].
  intros H. f_equal. apply IH, H.
Qed.

Lemma jm_wf_nil {V} : jm_wf (@nil (string * V)).
Proof. constructor. Qed.

Lemma jm_wf_set {V} (k : string) (v : V) (m : JSMap V) :
  jm_wf m → jm_wf (jm_set k v m).
Proof.
  unfold jm_wf. intros Hwf.
  destruct (jm_get k m) as [x|] eqn:Hget.
  - by rewrite jm_set_keys_present.
  - rewrite jm_set_keys_absent by done. unfold push.
    apply NoDup_app. split_and!; [done | | apply NoDup_singleton].
    intros y Hy Hy'. apply list_elem_of_singleton in Hy' as ->.
    by apply jm_get_None_key in Hget.
Qed.

(** Looking up the own keys of a dictionary gives its values in order. *)
Lemma jm_own_values {V} (m : JSMap V) :
  jm_wf m → omap (fun key => jm_get key m) (Object_keys m) = map snd m.
Proof.
  unfold jm_wf. induction m as [|[k v] m IH]; cbn; [done |].
  intros Hwf. apply NoDup_cons in Hwf as [Hk Hwf].
  rewrite decide_True by done. cbn. f_equal.
  rewrite <- IH by done.
  apply list_omap_ext. apply Forall_Forall2_diag, Forall_forall.
  intros k' Hk'. rewrite decide_False; [done |].
  intros ->. done.
Qed.

(** No lookup of an own key is [undefined], whatever the dictionary. *)
Lemma jm_own_keys_defined {V} (m : JSMap V) :
  Forall (fun key => is_Some (jm_get key m)) (Object_keys m).
Proof.
  apply Forall_forall. intros k Hk.
  destruct (jm_get k m) eqn:Hget; [by eexists |].
  by apply jm_get_None_key in Hget.
Qed.

Lemma omap_all_defined {A B} (f : A → option B) (l : list A) :
  Forall (fun x => is_Some (f x)) l → length (omap f l) = length l.
Proof.
  induction 1 as [|x l [y Hy] _ IH]; cbn; [done |].
  rewrite Hy. cbn. by rewrite IH.
Qed.

(** ** Sorting *)

Section Sorting.
Context {A : Type} (comparefn : A → A → Z) (R : A → A → Prop).
Hypothesis R_trans : ∀ a b c, R a b → R b c → R a c.
Hypothesis R_of_positive : ∀ a b, comparefn a b > 0 → R b a.
Hypothesis R_of_not_positive : ∀ a b, ¬ comparefn a b > 0 → R a b.

Lemma sort_insert_perm (element : A) (sorted_rev : list A) :
  sort_insert comparefn element sorted_rev ≡ₚ element :: sorted_rev.
Proof.
  induction sorted_rev as [|tmp rest IH]; cbn; [done |].
  case_decide; [| done].
  rewrite IH. apply perm_swap.
Qed.

Lemma sort_insert_sorted (element : A) (sorted_rev : list A) :
  StronglySorted (flip R) sorted_rev →
  StronglySorted (flip R) (sort_insert comparefn element sorted_rev).
Proof.
  induction 1 as [|tmp rest Hrest IH Htmp]; cbn.
  - repeat constructor.
  - case_decide as Hcmp.
    + constructor; [done |].
      rewrite sort_insert_perm. constructor; [| done].
      by apply R_of_positive.
    + constructor; [by constructor |].
      constructor; [by apply R_of_not_positive |].
      eapply Forall_impl; [exact Htmp |].
      intros y Hy. unfold flip in *. eapply R_trans; [exact Hy |].
      by apply R_of_not_positive.
Qed.

Lemma sort_fold_perm (array acc : list A) :
  fold_left (fun sorted_rev element => sort_insert comparefn element sorted_rev)
    array acc ≡ₚ (rev array ++ acc)%list.
Proof.
  revert acc. induction array as [|x array IH]; intros acc; cbn; [done |].
  rewrite IH, sort_insert_perm, <- app_assoc. done.
Qed.

Lemma sort_fold_sorted (array acc : list A) :
  StronglySorted (flip R) acc →
  StronglySorted (flip R)
    (fold_left (fun sorted_rev element => sort_insert comparefn element sorted_rev)
       array acc).
Proof.
  revert acc. induction array as [|x array IH]; intros acc Hacc; cbn; [done |].
  by apply IH, sort_insert_sorted.
Qed.

Lemma StronglySorted_rev_flip (l : list A) :
  StronglySorted (flip R) l → StronglySorted R (rev l).
Proof.
  induction 1 as [|x l Hl IH Hx]; cbn; [constructor |].
  apply StronglySorted_app. split_and!; [| done | repeat constructor].
  intros y z Hy Hz. apply list_elem_of_singleton in Hz as ->.
  rewrite Forall_forall in Hx. apply Hx.
  apply list_elem_of_In, in_rev. by apply list_elem_of_In.
Qed.

Lemma Array_sort_perm (array : list A) : Array_sort comparefn array ≡ₚ array.
Proof.
  unfold Array_sort. rewrite <- Permutation_rev, sort_fold_perm, app_nil_r.
  by rewrite <- Permutation_rev.
Qed.

Lemma Array_sort_sorted (array : list A) :
  StronglySorted R (Array_sort comparefn array).
Proof.
  unfold Array_sort. apply StronglySorted_rev_flip, sort_fold_sorted. constructor.
Qed.

End Sorting.

(** The comparison function of [getAllSorted] decides the order of the
    specification. *)
Lemma compareFixes_sorts_before (a b : AutoFix) :
  ¬ compareFixes a b > 0 ↔ sorts_before a b.
Proof.
  unfold compareFixes, sorts_before, start_offset, end_offset.
  repeat case_decide; lia.
Qed.

Lemma compareFixes_positive (a b : AutoFix) :
  compareFixes a b > 0 → sorts_before b a.
Proof.
  unfold compareFixes, sorts_before, start_offset, end_offset.
  repeat case_decide; lia.
Qed.

Lemma sorts_before_refl (a : AutoFix) : sorts_before a a.
Proof. unfold sorts_before. lia. Qed.

Lemma sorts_before_trans (a b c : AutoFix) :
  sorts_before a b → sorts_before b c → sorts_before a c.
Proof. unfold sorts_before. lia. Qed.

Lemma sorts_before_total (a b : AutoFix) : sorts_before a b ∨ sorts_before b a.
Proof. unfold sorts_before. lia. Qed.

Lemma sorts_before_antisym (a b : AutoFix) :
  sorts_before a b → sorts_before b a → range (edit a) = range (edit b).
Proof.
  unfold sorts_before, start_offset, end_offset.
  destruct (range (edit a)), (range (edit b)); cbn. intros. f_equal; lia.
Qed.

Lemma getAllSorted_perm (snapshot : JSMap AutoFix) :
  jm_wf snapshot → getAllSorted (new_Fixes snapshot) ≡ₚ map snd snapshot.
Proof.
  intros Hwf. unfold getAllSorted, new_Fixes. cbn [edits keys].
  rewrite Array_sort_perm. by rewrite jm_own_values.
Qed.

Lemma getAllSorted_strongly_sorted (this : Fixes) :
  StronglySorted sorts_before (getAllSorted this).
Proof.
  unfold getAllSorted. apply Array_sort_sorted.
  - apply sorts_before_trans.
  - apply compareFixes_positive.
  - intros a b. apply compareFixes_sorts_before.
Qed.

(** C4. [getAllSorted] returns the fixes of the snapshot, rearranged so that
    each one sorts before every later one in the order of the resolver
    (ascending start offset; at equal start offsets an end offset of 0
    first; otherwise ascending end offset).  That order is the one the
    comparison function decides, and it is total: reflexive, transitive, any
    two edits comparable, and two edits that sort before each other have the
    same range. *)
Theorem getAllSorted_sorted (snapshot : JSMap AutoFix) :
  jm_wf snapshot →
  getAllSorted (new_Fixes snapshot) ≡ₚ map snd snapshot
  ∧ StronglySorted sorts_before (getAllSorted (new_Fixes snapshot))
  ∧ (∀ a b, compareFixes a b <= 0 ↔ sorts_before a b)
  ∧ (∀ a, sorts_before a a)
  ∧ (∀ a b c, sorts_before a b → sorts_before b c → sorts_before a c)
  ∧ (∀ a b, sorts_before a b ∨ sorts_before b a)
  ∧ (∀ a b, sorts_before a b → sorts_before b a → range (edit a) = range (edit b)).
Proof.
  intros Hwf. split_and!.
  - by apply getAllSorted_perm.
  - apply getAllSorted_strongly_sorted.
  - intros a b. rewrite <- compareFixes_sorts_before. lia.
  - apply sorts_before_refl.
  - apply sorts_before_trans.
  - apply sorts_before_total.
  - apply sorts_before_antisym.
Qed.

(** ** The fix resolver *)

Lemma overlaps_Some (last current : AutoFix) :
  overlaps (Some last) current = bool_decide (end_offset last > start_offset current).
Proof. reflexivity. Qed.

Lemma getOverlapFree_loop (rest result : list AutoFix) (last : AutoFix) :
  fst (fold_left
         (fun '(result, last) current =>
            if negb (overlaps (Some last) current)
            then (push result current, current)
            else (result, last))
         rest (result, last))
  = (result ++ greedy_from last rest)%list.
Proof.
  revert result last. induction rest as [|current rest IH]; intros result last; cbn - [overlaps].
  - by rewrite app_nil_r.
  - rewrite overlaps_Some. case_bool_decide; case_decide; try done; cbn.
    + apply IH.
    + rewrite IH. unfold push. by rewrite <- app_assoc.
Qed.

Lemma getOverlapFree_greedy (this : Fixes) :
  getOverlapFree this = greedy (getAllSorted this).
Proof.
  unfold getOverlapFree.
  destruct (getAllSorted this) as [|first [|second rest]]; try done.
  rewrite decide_False by (cbn; lia).
  by rewrite getOverlapFree_loop.
Qed.

Lemma greedy_from_overlap_free (l : list AutoFix) (last : AutoFix) :
  overlap_free (last :: greedy_from last l).
Proof.
  revert last. induction l as [|current rest IH]; intros last; cbn.
  - intros i a b Ha Hb. destruct i; discriminate.
  - case_decide as Hcmp; [apply IH |].
    intros [|i] a b Ha Hb; cbn in *.
    + injection Ha as <-. injection Hb as <-. lia.
    + by apply (IH current i).
Qed.

Lemma greedy_overlap_free (l : list AutoFix) : overlap_free (greedy l).
Proof.
  destruct l as [|first rest]; cbn.
  - intros i a b Ha. discriminate.
  - apply greedy_from_overlap_free.
Qed.

Lemma greedy_from_sublist (l : list AutoFix) (last : AutoFix) :
  sublist (greedy_from last l) l.
Proof.
  revert last. induction l as [|current rest IH]; intros last; cbn; [done |].
  case_decide.
  - by apply sublist_cons.
  - by apply sublist_skip.
Qed.

Lemma greedy_sublist (l : list AutoFix) : sublist (greedy l) l.
Proof.
  destruct l as [|first rest]; cbn; [done |].
  apply sublist_skip, greedy_from_sublist.
Qed.

(** C5. [getOverlapFree] is the greedy left-to-right scan of
    [getAllSorted]: it keeps the first edit and then an edit iff the end
    offset of the most recently kept edit is not greater than its start
    offset; what it returns is a subsequence of [getAllSorted] in which the
    end offset of every element is at most the start offset of the next. *)
Theorem getOverlapFree_is_greedy (snapshot : JSMap AutoFix) :
  getOverlapFree (new_Fixes snapshot) = greedy (getAllSorted (new_Fixes snapshot))
  ∧ sublist (getOverlapFree (new_Fixes snapshot)) (getAllSorted (new_Fixes snapshot))
  ∧ overlap_free (getOverlapFree (new_Fixes snapshot)).
Proof.
  rewrite getOverlapFree_greedy. split_and!.
  - done.
  - apply greedy_sublist.
  - apply greedy_overlap_free.
Qed.

(** Scenario B of the specification: of the edits 10..20 and 15..25 only
    the first is kept. *)
Example getOverlapFree_scenario_B (a b : AutoFix) :
  range (edit a) = (10, 20) → range (edit b) = (15, 25) →
  getOverlapFree (new_Fixes [("a", a); ("b", b)]) = [a].
Proof.
  destruct a as [? ? ? [? ?]], b as [? ? ? [? ?]]; cbn.
  intros -> ->. reflexivity.
Qed.

Lemma getScoped_omap (this : Fixes) (diagnostics : list Diagnostic) :
  getScoped this diagnostics
  = omap (fun diagnostic => jm_get (computeKey diagnostic) (edits this)) diagnostics.
Proof.
  unfold getScoped.
  enough (∀ acc,
    fold_left
      (fun result diagnostic =>
         match jm_get (computeKey diagnostic) (edits this) with
         | Some editInfo => push result editInfo
         | None => result
         end) diagnostics acc
    = (acc ++ omap (fun diagnostic => jm_get (computeKey diagnostic) (edits this))
                diagnostics)%list) as H by apply H.
  induction diagnostics as [|d ds IH]; intros acc; cbn - [computeKey].
  - by rewrite app_nil_r.
  - rewrite IH. destruct (jm_get (computeKey d) (edits this)); cbn; [| done].
    unfold push. by rewrite <- app_assoc.
Qed.

Lemma getDocumentVersion_nonempty (key : string) (editInfo : AutoFix)
    (rest : JSMap AutoFix) :
  getDocumentVersion (new_Fixes ((key, editInfo) :: rest))
  = Normal (documentVersion editInfo).
Proof. unfold getDocumentVersion. cbn. by rewrite decide_True. Qed.

Lemma Array_map_createTextEdit_open (textDocument : TextDocument) (l : list AutoFix) :
  ∃ textEdits, Array_map (createTextEdit (Some textDocument)) l = Normal textEdits
               ∧ length textEdits = length l.
Proof.
  induction l as [|x l [ys [IH Hlen]]]; cbn.
  - by eexists.
  - rewrite IH. cbn. eexists. split; [done |]. cbn. by rewrite Hlen.
Qed.

(** C2, amended.  [isEmpty], [getScoped], [getAllSorted] and
    [getOverlapFree] never fail: no key of the snapshot has an undefined
    entry, and on the empty snapshot [isEmpty] is true and the other three
    return the empty list.  [getDocumentVersion] returns the version of the
    first entry of a snapshot that has one; on the empty snapshot it throws,
    and the all-fixes request, which calls it, asks [isEmpty] first and so
    never fails for an open document. *)
Theorem Fixes_methods_total (snapshot : JSMap AutoFix)
    (diagnostics : list Diagnostic) (textDocument : TextDocument) :
  isEmpty (new_Fixes []) = true
  ∧ getScoped (new_Fixes []) diagnostics = []
  ∧ getAllSorted (new_Fixes []) = []
  ∧ getOverlapFree (new_Fixes []) = []
  ∧ (isEmpty (new_Fixes snapshot) = true ↔ snapshot = [])
  ∧ length (getAllSorted (new_Fixes snapshot)) = length snapshot
  ∧ getDocumentVersion (new_Fixes snapshot)
    = match snapshot with
      | (_, editInfo) :: _ => Normal (documentVersion editInfo)
      | [] => Throw (TypeError "Cannot read property 'documentVersion' of undefined")
      end
  ∧ (∃ result, allFixes (Some snapshot) (Some textDocument) = Normal result).
Proof.
  split_and!; try reflexivity.
  - unfold getScoped. induction diagnostics; cbn; done.
  - unfold isEmpty, new_Fixes. cbn [keys].
    rewrite bool_decide_eq_true. unfold Object_keys. rewrite length_map.
    apply length_zero_iff_nil.
  - unfold getAllSorted, new_Fixes. cbn [edits keys].
    rewrite (Permutation_length (Array_sort_perm _ _)).
    rewrite omap_all_defined by apply jm_own_keys_defined.
    unfold Object_keys. by rewrite length_map.
  - destruct snapshot as [|[key editInfo] rest]; [done |].
    apply getDocumentVersion_nonempty.
  - unfold allFixes. destruct snapshot as [|[key editInfo] rest]; [by eexists |].
    replace (isEmpty (new_Fixes ((key, editInfo) :: rest))) with false by done.
    cbn [negb]. rewrite getDocumentVersion_nonempty.
    destruct (Array_map_createTextEdit_open textDocument
                (getOverlapFree (new_Fixes ((key, editInfo) :: rest))))
      as [textEdits [H _]].
    cbn. rewrite H. cbn. by eexists.
Qed.

(** ** Code actions *)

Lemma getLastEdit_last (array : list AutoFix) : getLastEdit array = last array.
Proof.
  unfold getLastEdit. case_decide as H.
  - apply length_zero_iff_nil in H. by subst.
  - rewrite last_lookup. f_equal. lia.
Qed.

Lemma getLastEdit_push (array : list AutoFix) (x : AutoFix) :
  getLastEdit (push array x) = Some x.
Proof. rewrite getLastEdit_last. apply last_snoc. Qed.

(** The scan that starts with an optional most recently kept edit. *)
Lemma sorted_loop_all (ruleId : option string) (l : list AutoFix) (st : SortedState) :
  all (fold_left (sorted_step ruleId) l st)
  = (all st ++ match getLastEdit (all st) with
               | Some x => greedy_from x l
               | None => greedy l
               end)%list.
Proof.
  revert st. induction l as [|e l IH]; intros st.
  - cbn. destruct (getLastEdit (all st)); by rewrite app_nil_r.
  - cbn [fold_left]. rewrite IH. cbn [sorted_step all].
    destruct (getLastEdit (all st)) as [x|] eqn:Hlast.
    + rewrite overlaps_Some. cbn [greedy_from].
      case_bool_decide; case_decide; try done; cbn [negb].
      * by rewrite Hlast.
      * rewrite getLastEdit_push. unfold push. by rewrite <- app_assoc.
    + cbn [overlaps negb]. rewrite getLastEdit_push.
      unfold push. by rewrite <- app_assoc.
Qed.

Lemma sorted_loop_same (rule : string) (l : list AutoFix) (st : SortedState) :
  same (fold_left (sorted_step (Some rule)) l st)
  = (same st ++ match getLastEdit (same st) with
                | Some x => greedy_from x (filter (fun e => autofix_ruleId e = rule) l)
                | None => greedy (filter (fun e => autofix_ruleId e = rule) l)
                end)%list.
Proof.
  revert st. induction l as [|e l IH]; intros st.
  - cbn. destruct (getLastEdit (same st)); by rewrite app_nil_r.
  - cbn [fold_left]. rewrite IH. cbn [sorted_step same].
    destruct (decide (autofix_ruleId e = rule)) as [Heq|Hne].
    + rewrite filter_cons_True by done.
      rewrite bool_decide_eq_true_2 by congruence. cbn [andb].
      destruct (getLastEdit (same st)) as [x|] eqn:Hlast.
      * rewrite overlaps_Some. cbn [greedy_from].
        case_bool_decide; case_decide; try done; cbn [negb].
        -- by rewrite Hlast.
        -- rewrite getLastEdit_push. unfold push. by rewrite <- app_assoc.
      * cbn [overlaps negb]. rewrite getLastEdit_push.
        unfold push. by rewrite <- app_assoc.
    + rewrite filter_cons_False by done.
      rewrite bool_decide_eq_false_2 by congruence. cbn [andb].
      done.
Qed.

Lemma sorted_loop_selections (rule : string) (documentVersion : Z)
    (sorted : list AutoFix) :
  same (sorted_loop (Some rule) documentVersion sorted) = same_rule_selection rule sorted
  ∧ all (sorted_loop (Some rule) documentVersion sorted) = greedy sorted.
Proof.
  unfold sorted_loop. rewrite sorted_loop_same, sorted_loop_all. done.
Qed.

(** The first loop of the handler: one single-fix command per scoped fix;
    the variables keep what the last scoped fix assigned. *)
Lemma scoped_loop_Normal (uri0 : string) (textDocument : option TextDocument)
    (scoped : list AutoFix) (st st' : ScopedState) :
  scoped_loop uri0 textDocument scoped st = Normal st' →
  ∃ singles,
    scoped_result st' = (scoped_result st ++ singles)%list
    ∧ length singles = length scoped
    ∧ Forall (fun c => cmd_command c = "eslint.applySingleFix") singles
    ∧ scoped_ruleId st'
      = match last scoped with
        | Some lastFix => Some (autofix_ruleId lastFix)
        | None => scoped_ruleId st
        end.
Proof.
  revert st. induction scoped as [|editInfo rest IH]; intros st; cbn.
  - intros [= <-]. exists []. by rewrite app_nil_r.
  - destruct (createTextEdit textDocument editInfo) as [textEdit|e]; cbn; [| done].
    intros H. apply IH in H as (singles & Hres & Hlen & Hcmd & Hrule).
    cbn in Hres, Hrule. unfold push in Hres. rewrite <- app_assoc in Hres.
    eexists. split_and!; [exact Hres | cbn; by rewrite Hlen | by constructor |].
    rewrite Hrule. destruct rest as [|x rest]; [done |].
    rewrite last_cons_cons.
    destruct (last (x :: rest)) eqn:E; [done | by apply last_None in E].
Qed.

Lemma scoped_loop_open (uri0 : string) (textDocument : TextDocument)
    (scoped : list AutoFix) (st : ScopedState) :
  ∃ st', scoped_loop uri0 (Some textDocument) scoped st = Normal st'.
Proof.
  revert st. induction scoped as [|editInfo rest IH]; intros st; cbn; [by eexists |].
  apply IH.
Qed.

Lemma last_omap_filter {A B} (f : A → option B) (l : list A) :
  last (omap f l) = last (filter (fun x => is_Some (f x)) l) ≫= f.
Proof.
  induction l as [|x l IH]; [done |].
  cbn [omap list_omap]. fold (@omap list _ A B f l).
  destruct (f x) as [y|] eqn:Hfx.
  - rewrite filter_cons_True by (by rewrite Hfx).
    rewrite !last_cons, IH.
    destruct (last (filter (fun x => is_Some (f x)) l)) as [z|] eqn:Hlast; cbn.
    + assert (is_Some (f z)) as [w Hw].
      { apply last_Some_elem_of in Hlast. by apply list_elem_of_filter in Hlast as [? _]. }
      by rewrite Hw.
    + by rewrite Hfx.
  - rewrite filter_cons_False by (rewrite Hfx; by intros [? ?]).
    apply IH.
Qed.

Lemma isEmpty_nil (snapshot : JSMap AutoFix) :
  isEmpty (new_Fixes snapshot) = true ↔ snapshot = [].
Proof.
  unfold isEmpty, new_Fixes. cbn [keys].
  rewrite bool_decide_eq_true. unfold Object_keys. rewrite length_map.
  apply length_zero_iff_nil.
Qed.

Lemma getScoped_nil (diagnostics : list Diagnostic) :
  getScoped (new_Fixes []) diagnostics = [].
Proof. rewrite getScoped_omap. by induction diagnostics. Qed.

(** The answer of the code-action handler: the single-fix commands, then at
    most one same-fixes command, then at most one all-fixes command. *)
Lemma codeActionCommands_shape (uri0 : string) (snapshot : JSMap AutoFix)
    (textDocument : option TextDocument) (diagnostics : list Diagnostic)
    (commands : list Command) :
  codeActionCommands uri0 (Some snapshot) textDocument diagnostics = Normal commands →
  ∃ singles sameCmds allCmds,
    commands = (singles ++ sameCmds ++ allCmds)%list
    ∧ Forall (fun c => cmd_command c = "eslint.applySingleFix") singles
    ∧ Forall (fun c => cmd_command c = "eslint.applyAllFixes") allCmds
    ∧ match last (getScoped (new_Fixes snapshot) diagnostics) with
      | None => sameCmds = []
      | Some lastFix =>
          let same :=
            same_rule_selection (autofix_ruleId lastFix)
              (getAllSorted (new_Fixes snapshot)) in
          if decide (1 < length same)%nat then
            ∃ textEdits documentVersion,
              Array_map (createTextEdit textDocument) same = Normal textEdits
              ∧ sameCmds =
                  [{| cmd_title := "Fix all " +:+ autofix_ruleId lastFix +:+ " problems";
                      cmd_command := "eslint.applySameFixes";
                      cmd_uri := uri0;
                      cmd_documentVersion := documentVersion;
                      cmd_edits := textEdits |}]
          else sameCmds = []
      end.
Proof.
  unfold codeActionCommands.
  destruct (isEmpty (new_Fixes snapshot)) eqn:Hempty.
  { apply isEmpty_nil in Hempty as ->. rewrite getScoped_nil.
    intros [= <-]. by exists [], [], []. }
  destruct (scoped_loop _ _ _ _) as [st|e] eqn:Hloop; [| done].
  apply scoped_loop_Normal in Hloop as (singles & Hres & Hlen & Hcmd & Hrule).
  cbn [scoped_result scoped_ruleId app] in Hres, Hrule.
  cbn [mbind Completion_bind]. rewrite Hres.
  case_decide as Hnonempty.
  2: { intros [= <-]. exists singles, [], []. rewrite !app_nil_r.
       split_and!; try done.
       assert (getScoped (new_Fixes snapshot) diagnostics = []) as ->.
       { apply length_zero_iff_nil. lia. }
       done. }
  destruct (last (getScoped (new_Fixes snapshot) diagnostics)) as [lastFix|] eqn:Hlast.
  2: { apply last_None in Hlast. rewrite Hlast in Hlen. cbn in Hlen. lia. }
  rewrite Hrule.
  destruct (sorted_loop_selections (autofix_ruleId lastFix) (scoped_documentVersion st)
              (getAllSorted (new_Fixes snapshot))) as [-> ->].
  cbn [render_undefined].
  set (same := same_rule_selection _ _).
  set (documentVersion := sorted_documentVersion _).
  destruct (decide (1 < length same)%nat) as [Hsame|Hsame].
  - destruct (Array_map (createTextEdit textDocument) same) as [sameEdits|e] eqn:HsameEdits;
      [| done].
    cbn [mbind Completion_bind].
    case_decide as Hall.
    + destruct (Array_map (createTextEdit textDocument) (greedy _)) as [allEdits|e];
        [| done].
      cbn [mbind Completion_bind]. intros [= <-].
      eexists singles, [_], [_]. unfold push. rewrite <- app_assoc.
      split_and!; [done | done | by repeat constructor | by eexists _, _].
    + intros [= <-].
      eexists singles, [_], []. unfold push.
      split_and!; [done | done | by constructor | by eexists _, _].
  - cbn [mbind Completion_bind].
    case_decide as Hall.
    + destruct (Array_map (createTextEdit textDocument) (greedy _)) as [allEdits|e];
        [| done].
      cbn [mbind Completion_bind]. intros [= <-].
      eexists singles, [], [_]. unfold push.
      split_and!; [done | done | by repeat constructor | done].
    + intros [= <-]. exists singles, [], []. rewrite !app_nil_r. done.
Qed.

(** The handler answers whenever the document is open. *)
Lemma codeActionCommands_open (uri0 : string) (edits0 : option (JSMap AutoFix))
    (textDocument : TextDocument) (diagnostics : list Diagnostic) :
  ∃ commands,
    codeActionCommands uri0 edits0 (Some textDocument) diagnostics = Normal commands.
Proof.
  unfold codeActionCommands. destruct edits0 as [snapshot|]; [| by eexists].
  destruct (isEmpty _); [by eexists |].
  destruct (scoped_loop_open uri0 textDocument
              (getScoped (new_Fixes snapshot) diagnostics)
              {| scoped_result := []; scoped_documentVersion := -1;
                 scoped_ruleId := None |}) as [st ->].
  cbn [mbind Completion_bind].
  case_decide; [| by eexists].
  set (st2 := sorted_loop _ _ _).
  destruct (Array_map_createTextEdit_open textDocument (same st2)) as [es1 [-> _]].
  destruct (Array_map_createTextEdit_open textDocument (all st2)) as [es2 [-> _]].
  repeat case_decide; cbn [mbind Completion_bind]; by eexists.
Qed.

(** C10. In the answer to a code-action request the same-fixes command is
    there iff the scoped selection (the registry entries of the context
    diagnostics whose key matches, in their order) is not empty and the
    greedy same-rule selection for the rule of its last fix has at least
    two fixes; that last fix is the entry of the last context diagnostic
    whose key matches an entry; the command is titled after that rule and
    carries the text edits of that selection. *)
Theorem codeAction_same_fixes (uri0 : string) (edits0 : option (JSMap AutoFix))
    (textDocument : option TextDocument) (diagnostics : list Diagnostic)
    (commands : list Command) :
  codeActionCommands uri0 edits0 textDocument diagnostics = Normal commands →
  let snapshot := default [] edits0 in
  let scoped := getScoped (new_Fixes snapshot) diagnostics in
  let sorted := getAllSorted (new_Fixes snapshot) in
  scoped = omap (fun d => jm_get (computeKey d) snapshot) diagnostics
  ∧ last scoped
    = last (filter (fun d => is_Some (jm_get (computeKey d) snapshot)) diagnostics)
      ≫= (fun d => jm_get (computeKey d) snapshot)
  ∧ ((∃ c, c ∈ commands ∧ cmd_command c = "eslint.applySameFixes")
     ↔ ∃ lastFix, last scoped = Some lastFix
         ∧ (2 <= length (same_rule_selection (autofix_ruleId lastFix) sorted))%nat)
  ∧ (∀ c, c ∈ commands → cmd_command c = "eslint.applySameFixes" →
       ∃ lastFix, last scoped = Some lastFix
         ∧ cmd_title c = "Fix all " +:+ autofix_ruleId lastFix +:+ " problems"
         ∧ Array_map (createTextEdit textDocument)
             (same_rule_selection (autofix_ruleId lastFix) sorted)
           = Normal (cmd_edits c)).
Proof.
  intros Hcmds snapshot scoped sorted.
  assert (scoped = omap (fun d => jm_get (computeKey d) snapshot) diagnostics) as Hscoped
    by apply getScoped_omap.
  split; [done |]. split; [rewrite Hscoped; apply last_omap_filter |].
  assert (∃ singles sameCmds allCmds,
    commands = (singles ++ sameCmds ++ allCmds)%list
    ∧ Forall (fun c => cmd_command c = "eslint.applySingleFix") singles
    ∧ Forall (fun c => cmd_command c = "eslint.applyAllFixes") allCmds
    ∧ match last scoped with
      | None => sameCmds = []
      | Some lastFix =>
          let same := same_rule_selection (autofix_ruleId lastFix) sorted in
          if decide (1 < length same)%nat then
            ∃ textEdits documentVersion,
              Array_map (createTextEdit textDocument) same = Normal textEdits
              ∧ sameCmds =
                  [{| cmd_title := "Fix all " +:+ autofix_ruleId lastFix +:+ " problems";
                      cmd_command := "eslint.applySameFixes";
                      cmd_uri := uri0;
                      cmd_documentVersion := documentVersion;
                      cmd_edits := textEdits |}]
          else sameCmds = []
      end) as (singles & sameCmds & allCmds & -> & Hsingles & Hall & Hsame).
  { destruct edits0 as [snapshot0|].
    - by apply codeActionCommands_shape.
    - injection Hcmds as <-. exists [], [], []. split_and!; try done.
      subst scoped snapshot. cbn [default]. by rewrite getScoped_nil. }
  assert (∀ c, c ∈ (singles ++ sameCmds ++ allCmds)%list →
               cmd_command c = "eslint.applySameFixes" → c ∈ sameCmds) as Hin.
  { intros c Hc Hcmd. rewrite !elem_of_app in Hc. destruct Hc as [Hc|[Hc|Hc]]; [| done |].
    - rewrite Forall_forall in Hsingles. apply Hsingles in Hc. congruence.
    - rewrite Forall_forall in Hall. apply Hall in Hc. congruence. }
  destruct (last scoped) as [lastFix|] eqn:Hlast.
  - cbn zeta in Hsame. case_decide as Hlen.
    + destruct Hsame as (textEdits & documentVersion & Hedits & ->).
      split.
      * split; [intros _; exists lastFix; split; [done | lia] |].
        intros _. eexists. split.
        -- rewrite !elem_of_app. right. left. apply list_elem_of_here.
        -- reflexivity.
      * intros c Hc Hcmd. apply Hin in Hc; [| done].
        apply list_elem_of_singleton in Hc as ->. exists lastFix. done.
    + subst sameCmds. split.
      * split.
        -- intros (c & Hc & Hcmd). apply Hin in Hc; [| done]. by apply elem_of_nil in Hc.
        -- intros (lastFix' & [= <-] & Hge). lia.
      * intros c Hc Hcmd. apply Hin in Hc; [| done]. by apply elem_of_nil in Hc.
  - subst sameCmds. split.
    + split.
      * intros (c & Hc & Hcmd). apply Hin in Hc; [| done]. by apply elem_of_nil in Hc.
      * intros (lastFix' & [=] & _).
    + intros c Hc Hcmd. apply Hin in Hc; [| done]. by apply elem_of_nil in Hc.
Qed.

(** ** The key of a diagnostic and the fix registry *)

Lemma pretty_N_go_forall (P : ascii → Prop) (x : N) (s : string) :
  (∀ n, P (pretty_N_char n)) → string_forall P s → string_forall P (pretty_N_go x s).
Proof.
  intros HP. revert s. induction (N.lt_wf_0 x) as [x _ IH]; intros s Hs.
  destruct (decide (x = 0)%N) as [->|Hx].
  - by rewrite pretty_N_go_0.
  - rewrite pretty_N_go_step by lia. apply IH.
    + apply N.div_lt; lia.
    + by split.
Qed.

Lemma pretty_N_forall (P : ascii → Prop) (x : N) :
  (∀ n, P (pretty_N_char n)) → string_forall P (pretty x).
Proof.
  intros HP. unfold pretty, pretty_N. case_decide.
  - split; [apply (HP 0%N) | done].
  - by apply pretty_N_go_forall.
Qed.

Lemma pretty_Z_forall (P : ascii → Prop) (x : Z) :
  (∀ n, P (pretty_N_char n)) → P "-"%char → string_forall P (pretty x).
Proof.
  intros HP Hdash. destruct x as [|p|p]; cbn.
  - split; [apply (HP 0%N) | done].
  - by apply pretty_N_forall.
  - split; [done |]. by apply pretty_N_forall.
Qed.

Lemma pretty_N_char_not (c : ascii) :
  (c = "," ∨ c = "]")%char → ∀ n, pretty_N_char n ≠ c.
Proof.
  intros Hc n. unfold pretty_N_char.
  repeat case_match; destruct Hc as [-> | ->]; discriminate.
Qed.

(** The decimal text of an integer holds neither a comma nor a bracket. *)
Lemma pretty_Z_no_separator (c : ascii) (x : Z) :
  (c = "," ∨ c = "]")%char → string_forall (fun a => a ≠ c) (pretty x).
Proof.
  intros Hc. apply pretty_Z_forall.
  - by apply pretty_N_char_not.
  - destruct Hc as [-> | ->]; discriminate.
Qed.

(** A text is split in one way only at the first occurrence of a character. *)
Lemma split_at_unique (c : ascii) (s1 s2 r1 r2 : string) :
  string_forall (fun a => a ≠ c) s1 → string_forall (fun a => a ≠ c) s2 →
  s1 +:+ String c r1 = s2 +:+ String c r2 → s1 = s2 ∧ r1 = r2.
Proof.
  revert s2. induction s1 as [|a s1 IH]; intros [|b s2]; cbn.
  - intros _ _ [= ->]. done.
  - intros _ [Hb _] [= -> _]. done.
  - intros [Ha _] _ [= -> _]. done.
  - intros [_ H1] [_ H2] [= -> Heq]. destruct (IH s2 H1 H2 Heq) as [-> ->]. done.
Qed.

Lemma pretty_split (c : ascii) (x y : Z) (r1 r2 : string) :
  (c = "," ∨ c = "]")%char →
  pretty x +:+ String c r1 = pretty y +:+ String c r2 → x = y ∧ r1 = r2.
Proof.
  intros Hc Heq.
  apply split_at_unique in Heq as [Heq ->]; [| by apply pretty_Z_no_separator ..].
  split; [| done]. by apply (inj pretty).
Qed.

(** The key of a diagnostic determines the four components of its range and
    the text of its code, and is determined by them. *)
Lemma computeKey_inj (d d' : Diagnostic) :
  computeKey d = computeKey d'
  ↔ diag_range d = diag_range d'
    ∧ render_nullable (diag_code d) = render_nullable (diag_code d').
Proof.
  split.
  - unfold computeKey.
    destruct (diag_range d) as [[l1 c1] [l2 c2]], (diag_range d') as [[l1' c1'] [l2' c2']].
    cbn [range_start range_end pos_line pos_character].
    intros [= H].
    apply pretty_split in H as [-> H]; [| by left].
    apply pretty_split in H as [-> H]; [| by left].
    apply pretty_split in H as [-> H]; [| by left].
    apply pretty_split in H as [-> H]; [| by right].
    by injection H as ->.
  - unfold computeKey. intros [-> ->]. done.
Qed.

Lemma recordCodeAction_recorded (document : TextDocument) (d : Diagnostic)
    (p : ESLintProblem) (fix0 : ESLintAutoFixEdit) (rule : string) (s : Server) :
  fix_ p = Some fix0 → ruleId p = Some rule → rule ≠ "" →
  recordCodeAction document d p s
  = (Normal tt,
     set_codeActions
       <[uri document :=
           jm_set (computeKey d)
             {| label := "Fix this " +:+ rule +:+ " problem";
                documentVersion := version document;
                autofix_ruleId := rule;
                edit := fix0 |}
             (default [] (codeActions s !! uri document))]> s).
Proof.
  intros Hfix Hrule Hne. unfold recordCodeAction. rewrite Hfix, Hrule.
  rewrite decide_False by done.
  unfold mbind, M_bind, bind, gets, modify.
  by destruct (codeActions s !! uri document).
Qed.

Lemma recordCodeAction_noop (document : TextDocument) (d : Diagnostic)
    (p : ESLintProblem) (s : Server) :
  fix_ p = None ∨ ruleId p = None ∨ ruleId p = Some "" →
  recordCodeAction document d p s = (Normal tt, s).
Proof.
  unfold recordCodeAction.
  intros [-> | [-> | ->]]; [done | by destruct (fix_ p) | by destruct (fix_ p)].
Qed.

(** C9. The key of a diagnostic is determined exactly by the four
    components of its range and its code; two problems with the same
    converted range and the same rule id have the same key; recording a
    second fix under a key that is present overwrites that entry in place
    and leaves every other entry of the document alone; recording is a
    no-op for a problem without an edit or without a rule id. *)
Theorem computeKey_recordCodeAction (document : TextDocument) (s : Server) :
  (∀ d d',
     computeKey d = computeKey d'
     ↔ diag_range d = diag_range d'
       ∧ render_nullable (diag_code d) = render_nullable (diag_code d'))
  ∧ (∀ p1 p2,
       diag_range (makeDiagnostic p1) = diag_range (makeDiagnostic p2) →
       ruleId p1 = ruleId p2 →
       computeKey (makeDiagnostic p1) = computeKey (makeDiagnostic p2))
  ∧ (∀ d1 p1 d2 p2 fix2 rule,
       computeKey d1 = computeKey d2 →
       fix_ p2 = Some fix2 → ruleId p2 = Some rule → rule ≠ "" →
       let s1 := exec (recordCodeAction document d1 p1) s in
       let s2 := exec (recordCodeAction document d2 p2) s1 in
       let edits1 := default [] (codeActions s1 !! uri document) in
       ∃ edits2,
         codeActions s2 !! uri document = Some edits2
         ∧ jm_get (computeKey d1) edits2
           = Some {| label := "Fix this " +:+ rule +:+ " problem";
                     documentVersion := version document;
                     autofix_ruleId := rule;
                     edit := fix2 |}
         ∧ (∀ k, k ≠ computeKey d1 → jm_get k edits2 = jm_get k edits1)
         ∧ (is_Some (jm_get (computeKey d1) edits1) →
            Object_keys edits2 = Object_keys edits1)
         ∧ (∀ fix1 rule1, fix_ p1 = Some fix1 → ruleId p1 = Some rule1 → rule1 ≠ "" →
            is_Some (jm_get (computeKey d1) edits1))
         ∧ (∀ u, u ≠ uri document → codeActions s2 !! u = codeActions s1 !! u))
  ∧ (∀ d p, fix_ p = None ∨ ruleId p = None →
       recordCodeAction document d p s = (Normal tt, s)).
Proof.
  split_and!.
  - apply computeKey_inj.
  - intros p1 p2 Hrange Hrule. apply computeKey_inj. split; [done |].
    cbn. by rewrite Hrule.
  - intros d1 p1 d2 p2 fix2 rule Hkey Hfix Hrule Hne s1 s2 edits1.
    subst s2. unfold exec.
    rewrite (recordCodeAction_recorded document d2 p2 fix2 rule s1) by done.
    cbn [snd set_codeActions codeActions]. rewrite lookup_insert_eq.
    eexists. split; [done |]. fold edits1. rewrite <- Hkey.
    split_and!.
    + apply jm_get_set_eq.
    + intros k Hk. by apply jm_get_set_ne.
    + apply jm_set_keys_present.
    + intros fix1 rule1 Hfix1 Hrule1 Hne1. subst edits1 s1. unfold exec.
      rewrite (recordCodeAction_recorded document d1 p1 fix1 rule1 s) by done.
      cbn [snd set_codeActions codeActions]. rewrite lookup_insert_eq.
      cbn [default from_option id].
      rewrite jm_get_set_eq. by eexists.
    + intros u Hu. by rewrite lookup_insert_ne.
  - intros d p [H|H]; apply recordCodeAction_noop; auto.
Qed.

(** ** Closing a document *)

Lemma ignoreTextDocument_eq (document : TextDocument) (s : Server) :
  ignoreTextDocument document s
  = (Normal (negb (supportedLanguages (languageId document))
             || negb (bool_decide (is_Some (document2Library s !! uri document)))),
     s).
Proof. reflexivity. Qed.

(** C3, amended.  Closing a document that is not ignored (a supported
    language and a library promise for its URI) deletes the entry of its URI
    in the document-to-library table and sends an empty list of diagnostics
    for the URI; closing an ignored document does nothing.  Either way the
    fix registry, with the entry of that URI, the two dedup stores, the
    settings and the pending validations are left as they were. *)
Theorem onDidClose_frame (document : TextDocument) (s : Server) :
  let s' := exec (onDidClose document) s in
  let ignored :=
    negb (supportedLanguages (languageId document))
    || negb (bool_decide (is_Some (document2Library s !! uri document))) in
  eval (onDidClose document) s = Normal tt
  ∧ document2Library s'
    = (if ignored then document2Library s
       else delete (uri document) (document2Library s))
  ∧ outbox s'
    = (if ignored then outbox s
       else push (outbox s) (SendDiagnostics (uri document) []))
  ∧ codeActions s' = codeActions s
  ∧ noConfigReported s' = noConfigReported s
  ∧ configErrorReported s' = configErrorReported s
  ∧ pending s' = pending s
  ∧ batches s' = batches s
  ∧ settings s' = settings s
  ∧ options s' = options s
  ∧ documents s' = documents s.
Proof.
  unfold onDidClose, exec, eval, mbind, M_bind, bind.
  rewrite ignoreTextDocument_eq.
  destruct (negb _ || negb _); cbn; done.
Qed.

(** ** The classifiers *)

Lemma bind_lift_Normal {A B} (a : A) (k : A → M B) :
  (x ← lift (Normal a); k x) = k a.
Proof. reflexivity. Qed.

Lemma bind_lift_Throw {A B} (e : Thrown) (k : A → M B) :
  (x ← lift (Throw e); k x) = throw e.
Proof. reflexivity. Qed.

Lemma isNoConfigFoundError_thrown (err : ESLintError) :
  isNoConfigFoundError err
  = Normal (bool_decide (err_messageTemplate err = Some "no-config-found")
            || bool_decide (err_message err = Some "No ESLint configuration found.")).
Proof. unfold isNoConfigFoundError. cbn. by case_bool_decide. Qed.

Lemma isNoConfigFoundError_nullish (v : Nullish) :
  isNoConfigFoundError (nullish v) = Throw (TypeError (cannot_read "messageTemplate" v)).
Proof. reflexivity. Qed.

(** For a value that has properties the test has an answer. *)
Lemma isNoConfigFoundError_answers (err : ESLintError) :
  isNoConfigFoundError err = Normal true ∨ isNoConfigFoundError err = Normal false.
Proof. rewrite isNoConfigFoundError_thrown. destruct (_ || _); [by left | by right]. Qed.

Lemma tryHandleNoConfig_eq (err : ESLintError) (document : TextDocument)
    (library : ESLintModule) (s : Server) :
  tryHandleNoConfig err document library s
  = if decide (isNoConfigFoundError err = Normal true) then
      (Normal (Some Status.warn),
       match noConfigReported s !! uri document with
       | None =>
           set_noConfigReported <[uri document := library]>
             (set_outbox
                (fun o => push o (NoConfigRequest (getMessage err document) (uri document)))
                s)
       | Some _ => s
       end)
    else (Normal None, s).
Proof.
  unfold tryHandleNoConfig.
  destruct (isNoConfigFoundError_answers err) as [H|H]; rewrite H.
  - rewrite decide_True by done.
    unfold mbind, M_bind, bind, gets, lift. cbn [negb].
    by destruct (noConfigReported s !! uri document).
  - by rewrite decide_False by done.
Qed.

(** A thrown [null] or [undefined]: the first classifier fails on its
    first read of the caught value. *)
Lemma tryHandleNoConfig_nullish (v : Nullish) (document : TextDocument)
    (library : ESLintModule) (s : Server) :
  tryHandleNoConfig (nullish v) document library s
  = (Throw (TypeError (cannot_read "messageTemplate" v)), s).
Proof. reflexivity. Qed.





Lemma handler_loop_nullish (handlers : list Handler) (v : Nullish)
    (document : TextDocument) (library : ESLintModule) (s : Server) :
  handler_loop (tryHandleNoConfig :: handlers) None (nullish v) document library s
  = (Throw (TypeError (cannot_read "messageTemplate" v)), s).
Proof. reflexivity. Qed.


(** A document whose library did not resolve is not validated, and nothing
    is published for it. *)
Lemma validateSingle_then_no_library (document : TextDocument) (s : Server) :
  validateSingle_then document None s = (Normal tt, s).
Proof. reflexivity. Qed.


(** ** Sanitized messages *)

(** No line feed is left in a sanitized message. *)
Lemma replace_line_breaks_no_LF (s : string) :
  string_forall (fun c => code_unit c ≠ 10%N) (replace_line_breaks s).
Proof.
  enough (string_forall (fun c => code_unit c ≠ 10%N) (replace_line_breaks s)
          ∧ ∀ c, string_forall (fun c => code_unit c ≠ 10%N)
                   (replace_line_breaks (String c s))) as [H _] by exact H.
  induction s as [|c' s [IH1 IH2]].
  - split; [exact I |]. intros c. cbn.
    destruct (code_unit c =? 10)%N eqn:Hc; cbn; [done |].
    split; [| done]. by apply N.eqb_neq.
  - split; [apply IH2 |]. intros c.
    cbn [replace_line_breaks].
    destruct (code_unit c =? 10)%N eqn:Hc.
    + split; [done | apply IH2].
    + destruct ((code_unit c =? 13) && (code_unit c' =? 10))%N.
      * split; [done | apply IH1].
      * split; [by apply N.eqb_neq | apply IH2].
Qed.

Lemma string_forall_substring (P : ascii → Prop) (s : string) (n m : nat) :
  string_forall P s → string_forall P (substring n m s).
Proof.
  revert n m. induction s as [|c s IH]; intros n m H.
  - by destruct n, m.
  - destruct H as [Hc Hs]. destruct n as [|n]; cbn.
    + destruct m as [|m]; [done |]. split; [done | by apply IH].
    + by apply IH.
Qed.

Lemma getMessage_no_LF (err : ESLintError) (document : TextDocument) (message : string) :
  err_message err = Some message →
  string_forall (fun c => code_unit c ≠ 10%N) (getMessage err document).
Proof.
  intros Hm. unfold getMessage. rewrite Hm.
  case_bool_decide.
  - apply string_forall_substring, replace_line_breaks_no_LF.
  - apply replace_line_breaks_no_LF.
Qed.

(** ** Relations that every handler preserves

    [R] relates the state before a handler to the state after it.  The
    section derives [preserves R] for the callbacks and for every event but
    a change of a watched file from what [R] says about the elementary
    updates, about [recordCodeAction] and about [tryHandleNoConfig]. *)
Section Preserves.
Context (R : Server → Server → Prop) `{!PreOrder R}.

Lemma preserves_ret {A} (a : A) : preserves R (ret a).
Proof. intros s. reflexivity. Qed.

Lemma preserves_mret {A} (a : A) : preserves R (mret a : M A).
Proof. intros s. reflexivity. Qed.

Lemma preserves_gets {A} (f : Server → A) : preserves R (gets f).
Proof. intros s. reflexivity. Qed.

Lemma preserves_throw {A} (e : Thrown) : preserves R (throw e : M A).
Proof. intros s. reflexivity. Qed.

Lemma preserves_lift {A} (c : Completion A) : preserves R (lift c).
Proof. intros s. reflexivity. Qed.

Lemma preserves_bind {A B} (m : M A) (f : A → M B) :
  preserves R m → (∀ a, preserves R (f a)) → preserves R (m ≫= f).
Proof.
  intros Hm Hf s. unfold exec, mbind, M_bind, bind.
  specialize (Hm s). unfold exec in Hm.
  destruct (m s) as [[a|e] s']; cbn in *; [| done].
  etrans; [exact Hm | apply Hf].
Qed.

Lemma preserves_try_catch {A} (body : M A) (handler : Thrown → M A) :
  preserves R body → (∀ e, preserves R (handler e)) →
  preserves R (try_catch body handler).
Proof.
  intros Hm Hf s. unfold exec, try_catch.
  specialize (Hm s). unfold exec in Hm.
  destruct (body s) as [[a|e] s']; cbn in *; [done |].
  etrans; [exact Hm | apply Hf].
Qed.

Lemma preserves_forEach {A} (l : list A) (body : A → M unit) :
  (∀ x, preserves R (body x)) → preserves R (forEach l body).
Proof.
  intros Hbody. induction l as [|x l IH]; cbn [forEach].
  - apply preserves_ret.
  - apply preserves_bind; [apply Hbody | intros _; apply IH].
Qed.

Lemma preserves_forEach_Forall {A} (l : list A) (body : A → M unit) :
  Forall (fun x => preserves R (body x)) l → preserves R (forEach l body).
Proof.
  induction 1 as [|x l Hx _ IH]; cbn [forEach].
  - apply preserves_ret.
  - apply preserves_bind; [exact Hx | intros _; exact IH].
Qed.

Lemma preserves_modify (f : Server → Server) :
  (∀ s, R s (f s)) → preserves R (modify f).
Proof. intros Hf s. apply Hf. Qed.

(** What [R] has to say about the elementary updates.  A lemma below
    depends on the updates that its handler makes and on no other. *)
Hypothesis R_send : ∀ s m,
  (∀ text uri0, m ≠ NoConfigRequest text uri0) →
  R s (set_outbox (fun o => push o m) s).
Hypothesis R_delete : ∀ s uri0, R s (set_codeActions (delete uri0) s).
Hypothesis R_configError : ∀ s filename library,
  R s (set_configErrorReported <[filename := library]> s).
Hypothesis R_pending : ∀ s f, R s (set_pending f s).
Hypothesis R_batches : ∀ s f, R s (set_batches f s).
Hypothesis R_document2Library : ∀ s f, R s (set_document2Library f s).
Hypothesis R_settings : ∀ s v o, R s (set_settings v o s).
Hypothesis R_recordCodeAction : ∀ document diagnostic problem,
  preserves R (recordCodeAction document diagnostic problem).
Hypothesis R_tryHandleNoConfig : ∀ err document library,
  preserves R (tryHandleNoConfig err document library).

Lemma preserves_send (m : Message) :
  (∀ text uri0, m ≠ NoConfigRequest text uri0) → preserves R (send m).
Proof. intros Hm s. by apply R_send. Qed.

(** Proves [preserves R] for a handler by following its structure. *)
Ltac preserves_step :=
  first
    [ apply R_tryHandleNoConfig
    | apply R_recordCodeAction
    | apply preserves_ret | apply preserves_mret | apply preserves_gets
    | apply preserves_throw | apply preserves_lift
    | apply preserves_send; intros ? ?; discriminate
    | apply preserves_modify; intros ?;
      first [ apply R_delete | apply R_configError | apply R_pending
            | apply R_batches | apply R_document2Library | apply R_settings ]
    | apply preserves_bind; [| intros ?]
    | apply preserves_try_catch; [| intros ?]
    | apply preserves_forEach; intros ?
    | match goal with
      | |- preserves _ (match ?x with _ => _ end) => destruct x
      | |- preserves _ (if ?b then _ else _) => destruct b
      end ].

Ltac preserves_solve := repeat preserves_step.

Lemma preserves_validate_problems (document : TextDocument)
    (problems : list (option ESLintProblem)) (diagnostics : list Diagnostic) :
  preserves R (validate_problems document diagnostics problems).
Proof.
  revert diagnostics. induction problems as [|problem rest IH]; intros diagnostics;
    cbn [validate_problems]; [apply preserves_mret |].
  apply preserves_bind; [| intros ?; apply IH].
  unfold validate_problem. preserves_solve.
Qed.

Lemma preserves_validate (document : TextDocument) (library : ESLintModule) :
  preserves R (validate document library).
Proof.
  unfold validate.
  repeat first [ apply preserves_validate_problems | preserves_step ].
Qed.

Lemma preserves_handleFileName (err : Thrown) (document : TextDocument)
    (library : ESLintModule) (filename : string) :
  preserves R (handleFileName err document library filename).
Proof. unfold handleFileName. preserves_solve. Qed.

Lemma preserves_tryHandleConfigError (err : Thrown)
    (document : TextDocument) (library : ESLintModule) :
  preserves R (tryHandleConfigError err document library).
Proof.
  unfold tryHandleConfigError.
  repeat first [ apply preserves_handleFileName | preserves_step ].
Qed.

Lemma preserves_showErrorMessage (err : Thrown)
    (document : TextDocument) (library : ESLintModule) :
  preserves R (showErrorMessage err document library).
Proof. unfold showErrorMessage. preserves_solve. Qed.

Lemma preserves_singleErrorHandlers (err : Thrown)
    (document : TextDocument) (library : ESLintModule) (handler : Handler) :
  handler ∈ singleErrorHandlers → preserves R (handler err document library).
Proof.
  unfold singleErrorHandlers. rewrite !elem_of_cons, elem_of_nil.
  intros [-> | [-> | [-> | []]]].
  - apply R_tryHandleNoConfig.
  - apply preserves_tryHandleConfigError.
  - apply preserves_showErrorMessage.
Qed.

Lemma preserves_manyErrorHandlers (err : Thrown)
    (document : TextDocument) (library : ESLintModule) (handler : Handler) :
  handler ∈ manyErrorHandlers → preserves R (handler err document library).
Proof.
  unfold manyErrorHandlers. rewrite !elem_of_cons, elem_of_nil.
  intros [-> | [-> | []]].
  - apply R_tryHandleNoConfig.
  - apply preserves_tryHandleConfigError.
Qed.

Lemma preserves_handler_loop (handlers : list Handler)
    (status0 : option Status.t) (err : Thrown) (document : TextDocument)
    (library : ESLintModule) :
  (∀ handler, handler ∈ handlers → preserves R (handler err document library)) →
  preserves R (handler_loop handlers status0 err document library).
Proof.
  revert status0. induction handlers as [|handler rest IH]; intros status0 Hall;
    cbn [handler_loop]; [apply preserves_mret |].
  apply preserves_bind; [apply Hall, list_elem_of_here |].
  intros [st|]; [apply preserves_mret |].
  apply IH. intros h Hh. by apply Hall, list_elem_of_further.
Qed.

Lemma preserves_validateSingle_then (document : TextDocument)
    (library : option ESLintModule) :
  preserves R (validateSingle_then document library).
Proof.
  unfold validateSingle_then. destruct library as [library|]; [| apply preserves_mret].
  apply preserves_try_catch.
  - apply preserves_bind; [apply preserves_validate | intros ?; preserves_solve].
  - intros err. apply preserves_bind; [| intros ?; preserves_solve].
    apply preserves_handler_loop, preserves_singleErrorHandlers.
Qed.

Lemma preserves_many_handler_loop (b : nat) (handlers : list Handler)
    (err : Thrown) (document : TextDocument) (library : ESLintModule) :
  (∀ handler, handler ∈ handlers → preserves R (handler err document library)) →
  preserves R (many_handler_loop b handlers err document library).
Proof.
  induction handlers as [|handler rest IH]; intros Hall;
    cbn [many_handler_loop]; [apply preserves_mret |].
  apply preserves_bind; [apply Hall, list_elem_of_here |].
  intros st. apply preserves_bind; [unfold set_status; preserves_solve |].
  intros _. destruct st; [apply preserves_mret |].
  apply IH. intros h Hh. by apply Hall, list_elem_of_further.
Qed.

Lemma preserves_validateMany_then (b : nat) (document : TextDocument)
    (library : option ESLintModule) :
  preserves R (validateMany_then b document library).
Proof.
  unfold validateMany_then. destruct library as [library|]; [| apply preserves_mret].
  apply preserves_try_catch; [apply preserves_validate |].
  intros err. apply preserves_bind.
  - apply preserves_many_handler_loop, preserves_manyErrorHandlers.
  - intros [|]; [apply preserves_mret |].
    unfold set_status, tracker_add. preserves_solve.
Qed.

Lemma preserves_tracker_sendErrors (b : nat) : preserves R (tracker_sendErrors b).
Proof. unfold tracker_sendErrors, get_batch. preserves_solve. Qed.

Lemma preserves_all_fulfilled (b : nat) : preserves R (all_fulfilled b).
Proof.
  unfold all_fulfilled, get_batch, set_status.
  repeat first [ apply preserves_tracker_sendErrors | preserves_step ].
Qed.

Lemma preserves_all_rejected (b : nat) : preserves R (all_rejected b).
Proof.
  unfold all_rejected.
  repeat first [ apply preserves_tracker_sendErrors | preserves_step ].
Qed.

Lemma preserves_attempt_fulfilled (b : nat) : preserves R (attempt_fulfilled b).
Proof.
  unfold attempt_fulfilled, get_batch, settle.
  repeat first [ apply preserves_all_fulfilled | preserves_step ].
Qed.

Lemma preserves_attempt_rejected (b : nat) : preserves R (attempt_rejected b).
Proof.
  unfold attempt_rejected, get_batch, settle.
  repeat first [ apply preserves_all_rejected | preserves_step ].
Qed.

Lemma preserves_run_callback (job : Job) : preserves R (run_callback job).
Proof.
  unfold run_callback. destruct job as [document [library|e] | b document [library|e]].
  - apply preserves_validateSingle_then.
  - apply preserves_mret.
  - apply preserves_bind.
    + apply preserves_try_catch; [| intros ?; apply preserves_mret].
      apply preserves_bind; [apply preserves_validateMany_then | intros ?; apply preserves_mret].
    + intros [|]; [apply preserves_attempt_fulfilled | apply preserves_attempt_rejected].
  - apply preserves_attempt_rejected.
Qed.

Lemma preserves_run_job (i : nat) : preserves R (run_job i).
Proof.
  unfold run_job.
  repeat first [ apply preserves_run_callback | preserves_step ].
Qed.

Lemma preserves_validateSingle (document : TextDocument) :
  preserves R (validateSingle document).
Proof. unfold validateSingle. preserves_solve. Qed.

Lemma preserves_validateMany (docs : list TextDocument) :
  preserves R (validateMany docs).
Proof.
  unfold validateMany, validateMany_document, ignoreTextDocument, get_batch, settle.
  repeat first [ apply preserves_all_fulfilled | preserves_step ].
Qed.

(** Every event but a change of a watched file. *)
Lemma preserves_handle (e : Event) :
  (∀ changes, e ≠ DidChangeWatchedFiles changes) → preserves R (handle e).
Proof.
  intros Hw. destruct e; cbn [handle].
  - unfold onDidChangeContent, settings_run, ignoreTextDocument.
    repeat first [ apply preserves_validateSingle | preserves_step ].
  - unfold onDidSave, settings_run, ignoreTextDocument.
    repeat first [ apply preserves_validateSingle | preserves_step ].
  - unfold onDidClose, ignoreTextDocument. preserves_solve.
  - unfold onDidChangeConfiguration.
    repeat first [ apply preserves_validateMany | preserves_step ].
  - by destruct (Hw changes).
  - unfold onCodeAction. preserves_solve.
  - unfold onAllFixesRequest. preserves_solve.
  - apply preserves_run_job.
Qed.

(** A change of a watched file: what follows the reset of
    [noConfigReported], and the whole handler for an [R] that allows the
    reset. *)
Lemma preserves_onDidChangeWatchedFiles_change (change_uri : string) :
  (∀ s filename, R s (set_configErrorReported (delete filename) s)) →
  preserves R (onDidChangeWatchedFiles_change change_uri).
Proof.
  intros Hdelete. unfold onDidChangeWatchedFiles_change.
  repeat first [ apply preserves_modify; intros ?; apply Hdelete | preserves_step ].
Qed.

Lemma preserves_onDidChangeWatchedFiles_rest (changes : list string) :
  (∀ s filename, R s (set_configErrorReported (delete filename) s)) →
  preserves R
    (forEach changes onDidChangeWatchedFiles_change;;
     docs ← gets documents; validateMany docs).
Proof.
  intros Hdelete. apply preserves_bind.
  - apply preserves_forEach. intros change_uri.
    by apply preserves_onDidChangeWatchedFiles_change.
  - intros _. repeat first [ apply preserves_validateMany | preserves_step ].
Qed.

Lemma preserves_onDidChangeWatchedFiles (changes : list string) :
  (∀ s f, R s (set_noConfigReported f s)) →
  (∀ s filename, R s (set_configErrorReported (delete filename) s)) →
  preserves R (onDidChangeWatchedFiles changes).
Proof.
  intros Hreset Hdelete. unfold onDidChangeWatchedFiles.
  apply preserves_bind; [by apply preserves_modify |]. intros _.
  by apply preserves_onDidChangeWatchedFiles_rest.
Qed.

Lemma preserves_run_events (events : list Event) (s : Server) :
  Forall (fun e => preserves R (handle e)) events → R s (run_events s events).
Proof.
  intros Hall. revert s. induction Hall as [|e events He _ IH]; intros s.
  - reflexivity.
  - cbn. etrans; [apply He | apply IH].
Qed.

End Preserves.

(** ** No-config requests are sent once *)

Global Instance noConfig_quiet_preorder (uri0 : string) : PreOrder (noConfig_quiet uri0).
Proof.
  split.
  - by intros s H.
  - intros s1 s2 s3 H12 H23 H1.
    destruct (H12 H1) as [H2 Heq2]. destruct (H23 H2) as [H3 Heq3].
    split; [done | congruence].
Qed.

Lemma noConfigRequests_push (uri0 : string) (o : list Message) (m : Message) :
  noConfigRequests uri0 (push o m)
  = (noConfigRequests uri0 o + if is_noConfigRequest uri0 m then 1 else 0)%nat.
Proof.
  unfold push, noConfigRequests. rewrite List.filter_app, length_app. cbn.
  by destruct (is_noConfigRequest uri0 m).
Qed.

Lemma quiet_tryHandleNoConfig (uri0 : string) (err : Thrown)
    (document : TextDocument) (library : ESLintModule) :
  preserves (noConfig_quiet uri0) (tryHandleNoConfig err document library).
Proof.
  intros s. unfold exec. destruct err as [err|v]; [| reflexivity].
  rewrite tryHandleNoConfig_eq.
  case_decide; [| reflexivity].
  cbn [snd]. destruct (noConfigReported s !! uri document) eqn:Hrep; [reflexivity |].
  intros [x Hx]. cbn [noConfigReported outbox set_noConfigReported set_outbox].
  destruct (decide (uri document = uri0)) as [Heq|Hne]; [congruence |].
  rewrite lookup_insert_ne by done. split; [by eexists |].
  rewrite noConfigRequests_push. cbn [is_noConfigRequest].
  rewrite bool_decide_eq_false_2 by done. lia.
Qed.

(** Every event but a change of a watched file keeps a no-config mark and
    sends no request for a marked document. *)
Lemma quiet_frame (uri0 : string) (s s' : Server) :
  noConfigReported s' = noConfigReported s → outbox s' = outbox s →
  noConfig_quiet uri0 s s'.
Proof. intros Hr Ho H. by rewrite Hr, Ho. Qed.

Lemma quiet_handle (uri0 : string) (e : Event) :
  (∀ changes, e ≠ DidChangeWatchedFiles changes) →
  preserves (noConfig_quiet uri0) (handle e).
Proof.
  apply preserves_handle;
    try (intros; apply quiet_frame; reflexivity).
  - apply _.
  - intros s m Hm H. split; [done |]. cbn [outbox set_outbox].
    rewrite noConfigRequests_push.
    destruct m as [| |text u| | |]; cbn [is_noConfigRequest]; try lia.
    by destruct (Hm text u).
  - intros document diagnostic problem s. unfold exec, recordCodeAction.
    destruct (fix_ problem), (ruleId problem) as [rule|]; try reflexivity.
    case_decide; [reflexivity |].
    unfold mbind, M_bind, bind, gets, modify. by intros ?.
  - apply quiet_tryHandleNoConfig.
Qed.

Lemma quiet_run_events (uri0 : string) (events : list Event) (s : Server) :
  Forall (fun e => ∀ changes, e ≠ DidChangeWatchedFiles changes) events →
  noConfig_quiet uri0 s (run_events s events).
Proof.
  intros Hall. apply preserves_run_events; [apply _ |].
  eapply Forall_impl; [exact Hall |]. intros e He. by apply quiet_handle.
Qed.

(** ** The keys of a registry snapshot are distinct *)

Global Instance keeps_registry_wf_preorder : PreOrder keeps_registry_wf.
Proof. split; [by intros s H | intros s1 s2 s3 H12 H23 H1; by apply H23, H12]. Qed.

Lemma keeps_registry_wf_recordCodeAction (document : TextDocument)
    (diagnostic : Diagnostic) (problem : ESLintProblem) :
  preserves keeps_registry_wf (recordCodeAction document diagnostic problem).
Proof.
  intros s Hwf. unfold exec, recordCodeAction.
  destruct (fix_ problem), (ruleId problem) as [rule|]; try done.
  case_decide; [done |].
  unfold mbind, M_bind, bind, gets, modify. cbn [snd].
  intros u edits0. cbn [codeActions set_codeActions].
  destruct (decide (uri document = u)) as [<-|Hne].
  - rewrite lookup_insert_eq. intros [= <-]. apply jm_wf_set.
    destruct (codeActions s !! uri document) as [stored|] eqn:Hstored.
    + by apply (Hwf (uri document)).
    + apply jm_wf_nil.
  - rewrite lookup_insert_ne by done. apply Hwf.
Qed.

Lemma keeps_registry_wf_frame (s s' : Server) :
  codeActions s' = codeActions s → keeps_registry_wf s s'.
Proof. intros Heq Hwf u edits0. rewrite Heq. apply Hwf. Qed.

Lemma keeps_registry_wf_handle (e : Event) : preserves keeps_registry_wf (handle e).
Proof.
  assert (∀ s u, keeps_registry_wf s (set_codeActions (delete u) s)) as Hdelete.
  { intros s u Hwf u' edits0. cbn. intros H.
    apply lookup_delete_Some in H as [_ H]. by apply (Hwf u'). }
  assert (∀ err document library,
            preserves keeps_registry_wf (tryHandleNoConfig err document library)) as HnoConfig.
  { intros err document library s. unfold exec. apply keeps_registry_wf_frame.
    destruct err as [err|v]; [| done].
    rewrite tryHandleNoConfig_eq. case_decide; [| done].
    by destruct (noConfigReported s !! uri document). }
  assert ((∃ changes, e = DidChangeWatchedFiles changes)
          ∨ ∀ changes, e ≠ DidChangeWatchedFiles changes) as [[changes ->]|Hw].
  { destruct e; try (right; intros changes'; discriminate). left. by eexists. }
  - cbn [handle]. apply preserves_onDidChangeWatchedFiles;
      try (intros; apply keeps_registry_wf_frame; reflexivity).
    apply _.
  - apply preserves_handle;
      try (intros; apply keeps_registry_wf_frame; reflexivity).
    + apply _.
    + apply Hdelete.
    + apply keeps_registry_wf_recordCodeAction.
    + apply HnoConfig.
    + apply Hw.
Qed.

(** Whatever happens to a server that starts with distinct keys in every
    registry snapshot, its snapshots keep distinct keys. *)
Lemma registry_wf_run_events (events : list Event) (s : Server) :
  registry_wf s → registry_wf (run_events s events).
Proof.
  apply preserves_run_events; [apply _ |].
  apply Forall_forall. intros e _. apply keeps_registry_wf_handle.
Qed.

(** The snapshot that a request finds in the registry, after any events on
    a server that started with distinct keys, is sorted by [getAllSorted]
    without loss or duplication. *)
Lemma getAllSorted_registry (events : list Event) (s : Server) (uri0 : string)
    (snapshot : JSMap AutoFix) :
  registry_wf s →
  codeActions (run_events s events) !! uri0 = Some snapshot →
  getAllSorted (new_Fixes snapshot) ≡ₚ map snd snapshot
  ∧ StronglySorted sorts_before (getAllSorted (new_Fixes snapshot)).
Proof.
  intros Hwf Hlookup. split; [| apply getAllSorted_strongly_sorted].
  apply getAllSorted_perm.
  by apply (registry_wf_run_events events s Hwf uri0).
Qed.

(** C7. Starting where the document is not marked as reported, the first
    classification of a no-config error sends the no-config request, with
    the sanitized message and the URI of the document, and returns warn;
    after any events other than a change of a watched configuration file, a
    second classification of a no-config error for the same URI sends
    nothing and returns warn; over the whole run exactly one no-config
    request has been sent for that URI. *)
Theorem noConfig_request_sent_once (err1 err2 : ESLintError)
    (document1 document2 : TextDocument) (library1 library2 : ESLintModule)
    (events : list Event) (s : Server) :
  isNoConfigFoundError err1 = Normal true →
  isNoConfigFoundError err2 = Normal true →
  uri document1 = uri document2 →
  noConfigReported s !! uri document1 = None →
  Forall (fun e => ∀ changes, e ≠ DidChangeWatchedFiles changes) events →
  let first := tryHandleNoConfig err1 document1 library1 s in
  let between := run_events first.2 events in
  let second := tryHandleNoConfig err2 document2 library2 between in
  first.1 = Normal (Some Status.warn)
  ∧ outbox first.2
    = push (outbox s) (NoConfigRequest (getMessage err1 document1) (uri document1))
  ∧ second.1 = Normal (Some Status.warn)
  ∧ outbox second.2 = outbox between
  ∧ noConfigRequests (uri document1) (outbox second.2)
    = S (noConfigRequests (uri document1) (outbox s)).
Proof.
  intros H1 H2 Huri Hnew Hevents first between second.
  subst second between first.
  rewrite !tryHandleNoConfig_eq, !decide_True, Hnew by done. cbn [fst snd].
  set (s1 := set_noConfigReported _ _).
  assert (is_Some (noConfigReported s1 !! uri document1)) as Hmarked.
  { subst s1. cbn. rewrite lookup_insert_eq. by eexists. }
  destruct (quiet_run_events (uri document1) events s1 Hevents Hmarked) as [[x Hx] Hcount].
  rewrite <- Huri, Hx.
  split_and!; try done.
  rewrite Hcount. subst s1. cbn.
  unfold push, noConfigRequests. rewrite List.filter_app, length_app. cbn.
  rewrite bool_decide_eq_true_2 by done. cbn. lia.
Qed.

(** * Further properties of the program *)

(** ** Sanitizing *)

Lemma replace_line_breaks_cons (c : ascii) (s : string) :
  replace_line_breaks (String c s)
  = if (code_unit c =? 10)%N then String " " (replace_line_breaks s)
    else
      match s with
      | String c' s'' =>
          if ((code_unit c =? 13) && (code_unit c' =? 10))%N
          then String " " (replace_line_breaks s'')
          else String c (replace_line_breaks s)
      | EmptyString => String c EmptyString
      end.
Proof. reflexivity. Qed.

Lemma replace_line_breaks_length (s : string) :
  (String.length (replace_line_breaks s) <= String.length s)%nat.
Proof.
  enough ((String.length (replace_line_breaks s) <= String.length s)%nat
          ∧ ∀ c, (String.length (replace_line_breaks (String c s))
                  <= S (String.length s))%nat) as [H _] by exact H.
  induction s as [|c' s [IH1 IH2]].
  - split; [done |]. intros c. cbn. by destruct (code_unit c =? 10)%N.
  - split; [apply IH2 |]. intros c. rewrite replace_line_breaks_cons.
    specialize (IH2 c').
    destruct (code_unit c =? 10)%N.
    + cbn [String.length]. lia.
    + destruct ((code_unit c =? 13) && (code_unit c' =? 10))%N;
        cbn [String.length] in *; lia.
Qed.

Lemma replace_line_breaks_id (s : string) :
  string_forall (fun c => code_unit c ≠ 10%N) s → replace_line_breaks s = s.
Proof.
  enough ((string_forall (fun c => code_unit c ≠ 10%N) s → replace_line_breaks s = s)
          ∧ ∀ c, string_forall (fun c => code_unit c ≠ 10%N) (String c s) →
                 replace_line_breaks (String c s) = String c s) as [H _] by exact H.
  induction s as [|c' s [IH1 IH2]].
  - split; [done |]. intros c [Hc _]. cbn.
    by rewrite (proj2 (N.eqb_neq _ _) Hc).
  - split; [apply IH2 |]. intros c [Hc [Hc' Hs]]. rewrite replace_line_breaks_cons.
    rewrite (proj2 (N.eqb_neq _ _) Hc), (proj2 (N.eqb_neq _ _) Hc'), andb_false_r.
    f_equal. apply IH2. by split.
Qed.

Lemma substring_length_le (n m : nat) (s : string) :
  (String.length (substring n m s) <= String.length s)%nat.
Proof.
  revert n m. induction s as [|c s IH]; intros n m.
  - by destruct n, m.
  - destruct n as [|n]; cbn.
    + destruct m as [|m]; cbn; [lia |]. specialize (IH 0%nat m). lia.
    + specialize (IH n m). lia.
Qed.

(** X1. A sanitized message holds no line feed and is not longer than the
    raw message; a raw message without line feed and without the CLI prefix
    is returned as it is. *)
Theorem getMessage_sanitized (err : ESLintError) (document : TextDocument)
    (message : string) :
  err_message err = Some message →
  string_forall (fun c => code_unit c ≠ 10%N) (getMessage err document)
  ∧ (String.length (getMessage err document) <= String.length message)%nat
  ∧ (string_forall (fun c => code_unit c ≠ 10%N) message →
     strip_prefix "CLI: " message = None →
     getMessage err document = message).
Proof.
  intros Hm. split; [by eapply getMessage_no_LF |].
  unfold getMessage. rewrite Hm. split.
  - case_bool_decide.
    + unfold substr. etrans; [apply substring_length_le | apply replace_line_breaks_length].
    + apply replace_line_breaks_length.
  - intros Hclean Hprefix. rewrite replace_line_breaks_id by done.
    rewrite Hprefix. rewrite bool_decide_eq_false_2; [done |]. by intros [? ?].
Qed.

(** ** Validating a document *)

Lemma set_codeActions_id (s : Server) : set_codeActions (fun registry => registry) s = s.
Proof. by destruct s. Qed.

Lemma recordCodeAction_pure (document : TextDocument) (problem : ESLintProblem)
    (s : Server) :
  recordCodeAction document (makeDiagnostic problem) problem s
  = (Normal tt,
     set_codeActions
       (fun registry =>
          match recorded_fix document problem with
          | Some (key, fix0) =>
              <[uri document := jm_set key fix0 (default [] (registry !! uri document))]>
                registry
          | None => registry
          end) s).
Proof.
  unfold recordCodeAction, recorded_fix.
  destruct (fix_ problem) as [fix0|], (ruleId problem) as [rule|];
    try by rewrite set_codeActions_id.
  case_decide; [by rewrite set_codeActions_id |].
  unfold mbind, M_bind, bind, gets, modify.
  destruct (codeActions s !! uri document) eqn:E;
    unfold set_codeActions; rewrite E; reflexivity.
Qed.

Lemma jm_set_not_nil {V} (k : string) (v : V) (m : JSMap V) : jm_set k v m ≠ [].
Proof. destruct m as [|[k' v'] m]; cbn; [done |]. by case_decide. Qed.

Lemma with_snapshot_lookup (uri0 : string) (snapshot : JSMap AutoFix)
    (registry : gmap string (JSMap AutoFix)) :
  default [] (with_snapshot uri0 snapshot registry !! uri0) = snapshot.
Proof.
  destruct snapshot; cbn.
  - by rewrite lookup_delete_eq.
  - by rewrite lookup_insert_eq.
Qed.

Lemma with_snapshot_set (uri0 key : string) (fix0 : AutoFix) (snapshot : JSMap AutoFix)
    (registry : gmap string (JSMap AutoFix)) :
  <[uri0 := jm_set key fix0 snapshot]> (with_snapshot uri0 snapshot registry)
  = with_snapshot uri0 (jm_set key fix0 snapshot) registry.
Proof.
  unfold with_snapshot at 2.
  destruct (jm_set key fix0 snapshot) eqn:Hset; [by apply jm_set_not_nil in Hset |].
  destruct snapshot; cbn.
  - by rewrite insert_delete_eq.
  - by rewrite insert_insert_eq.
Qed.

(** The loop of [validate], from a registry in which the document has the
    snapshot [snapshot]. *)
Lemma validate_problems_pure (document : TextDocument)
    (problems : list (option ESLintProblem)) (diagnostics : list Diagnostic)
    (snapshot : JSMap AutoFix) (registry : gmap string (JSMap AutoFix)) (s : Server) :
  codeActions s = with_snapshot (uri document) snapshot registry →
  validate_problems document diagnostics problems s
  = (Normal (diagnostics ++ map makeDiagnostic (omap id problems))%list,
     set_codeActions
       (fun _ =>
          with_snapshot (uri document)
            (fold_left
               (fun edits problem =>
                  match recorded_fix document problem with
                  | Some (key, fix0) => jm_set key fix0 edits
                  | None => edits
                  end)
               (omap id problems) snapshot)
            registry) s).
Proof.
  revert diagnostics snapshot s.
  induction problems as [|[problem|] rest IH]; intros diagnostics snapshot s Hs.
  - cbn. rewrite app_nil_r, <- Hs. f_equal. by destruct s.
  - cbn [validate_problems validate_problem].
    unfold mbind, M_bind. unfold bind at 1 2. rewrite recordCodeAction_pure.
    cbn [ret]. erewrite IH.
    + cbn [omap list_omap id map fold_left]. unfold push.
      rewrite <- app_assoc. reflexivity.
    + cbn [codeActions set_codeActions]. rewrite Hs.
      destruct (recorded_fix document problem) as [[key fix0]|]; [| done].
      by rewrite with_snapshot_lookup, with_snapshot_set.
  - cbn [validate_problems validate_problem].
    unfold mbind, M_bind. unfold bind at 1. cbn [ret].
    by apply IH.
Qed.

Lemma validate_eq (document : TextDocument) (library : ESLintModule)
    (s : Server) :
  match new_CLIEngine library (options s) with
  | Throw e => validate document library s = (Throw e, s)
  | Normal cli =>
      match executeOnText cli (getText document) (uriToFilePath (uri document)) with
      | Throw e =>
          validate document library s
          = (Throw e, set_codeActions (delete (uri document)) s)
      | Normal report =>
          let problems := report_problems report in
          validate document library s
          = (Normal tt,
             set_outbox
               (fun o => push o (SendDiagnostics (uri document)
                                   (map makeDiagnostic problems)))
               (set_codeActions
                  (with_snapshot (uri document) (fixes_of document problems)) s))
      end
  end.
Proof.
  assert (∀ problems,
    bind (validate_problems document [] problems)
      (fun diagnostics => send (SendDiagnostics (uri document) diagnostics))
      (set_codeActions (delete (uri document)) s)
    = (Normal tt,
       set_outbox
         (fun o => push o (SendDiagnostics (uri document)
                             (map makeDiagnostic (omap id problems))))
         (set_codeActions
            (with_snapshot (uri document) (fixes_of document (omap id problems))) s)))
    as Hloop.
  { intros problems. unfold bind.
    rewrite (validate_problems_pure document problems [] [] (codeActions s)) by done.
    reflexivity. }
  destruct (new_CLIEngine library (options s)) as [cli|e] eqn:Hcli.
  2: { unfold validate, mbind, M_bind, bind, gets, lift. by rewrite Hcli. }
  destruct (executeOnText cli (getText document) (uriToFilePath (uri document)))
    as [report|e] eqn:Hrun.
  2: { unfold validate, mbind, M_bind, bind, gets, lift, modify.
       by rewrite Hcli, Hrun. }
  cbn zeta.
  transitivity
    (bind
       match report with
       | Some {| results := Some (docReport :: _) |} =>
           match messages docReport with
           | Some problems => validate_problems document [] problems
           | None => ret []
           end
       | _ => ret []
       end
       (fun diagnostics => send (SendDiagnostics (uri document) diagnostics))
       (set_codeActions (delete (uri document)) s)).
  { unfold validate, mbind, M_bind. unfold bind at 1. cbn [gets].
    unfold bind at 1. unfold lift at 1. rewrite Hcli.
    unfold bind at 1. cbn [modify].
    unfold bind at 1. unfold lift at 1. rewrite Hrun. reflexivity. }
  unfold report_problems.
  destruct report as [[[[|docReport rest]|]]|]; try reflexivity.
  destruct (messages docReport) as [problems|]; [apply Hloop | reflexivity].
Qed.

(** X2. What [validate] does.  If the engine cannot be constructed, the
    error is thrown and nothing has changed.  If linting throws, the error
    is thrown after the registry entry of the document has been deleted,
    and nothing is published.  Otherwise the diagnostics of the problems of
    the report are published in their order, and the registry entry of the
    document holds the fixes of this report and nothing older (no entry if
    the report has no fix); no other field of the state changes. *)
Theorem validate_outcome (document : TextDocument) (library : ESLintModule)
    (s : Server) :
  match new_CLIEngine library (options s) with
  | Throw e => validate document library s = (Throw e, s)
  | Normal cli =>
      match executeOnText cli (getText document) (uriToFilePath (uri document)) with
      | Throw e =>
          validate document library s
          = (Throw e, set_codeActions (delete (uri document)) s)
      | Normal report =>
          let problems := report_problems report in
          validate document library s
          = (Normal tt,
             set_outbox
               (fun o => push o (SendDiagnostics (uri document)
                                   (map makeDiagnostic problems)))
               (set_codeActions
                  (with_snapshot (uri document) (fixes_of document problems)) s))
      end
  end.
Proof. apply validate_eq. Qed.

Lemma fixes_of_fold_lookup (document : TextDocument) (key : string)
    (problems : list ESLintProblem) (acc : JSMap AutoFix) :
  jm_get key
    (fold_left
       (fun edits problem =>
          match recorded_fix document problem with
          | Some (key', fix0) => jm_set key' fix0 edits
          | None => edits
          end)
       problems acc)
  = match last (omap (recorded_under document key) problems) with
    | Some fix0 => Some fix0
    | None => jm_get key acc
    end.
Proof.
  revert acc. induction problems as [|p rest IH]; intros acc; [done |].
  cbn [fold_left]. rewrite IH. cbn [omap list_omap].
  fold (@omap list _ _ _ (recorded_under document key) rest).
  unfold recorded_under at 2.
  destruct (recorded_fix document p) as [[key' fix0]|]; [| done].
  case_decide as Hkey.
  - subst key'. rewrite last_cons.
    destruct (last (omap (recorded_under document key) rest));
      [done | apply jm_get_set_eq].
  - destruct (last (omap (recorded_under document key) rest)); [done |].
    apply jm_get_set_ne. congruence.
Qed.

(** Looking a key up in the snapshot of a report gives the fix of the last
    problem of the report that records under that key. *)
Lemma fixes_of_lookup (document : TextDocument) (key : string)
    (problems : list ESLintProblem) :
  jm_get key (fixes_of document problems)
  = last (omap (recorded_under document key) problems).
Proof.
  unfold fixes_of. rewrite fixes_of_fold_lookup. by destruct (last _).
Qed.

Lemma fixes_of_wf (document : TextDocument) (problems : list ESLintProblem) :
  jm_wf (fixes_of document problems).
Proof.
  unfold fixes_of. generalize (@jm_wf_nil AutoFix). generalize (@nil (string * AutoFix)).
  induction problems as [|p rest IH]; intros acc Hacc; [done |].
  cbn [fold_left]. apply IH.
  destruct (recorded_fix document p) as [[key fix0]|]; [by apply jm_wf_set | done].
Qed.

Lemma recorded_under_Some (document : TextDocument) (key : string)
    (problem : ESLintProblem) (fix0 : AutoFix) :
  recorded_under document key problem = Some fix0 →
  key = computeKey (makeDiagnostic problem)
  ∧ documentVersion fix0 = version document
  ∧ ruleId problem = Some (autofix_ruleId fix0)
  ∧ fix_ problem = Some (edit fix0)
  ∧ autofix_ruleId fix0 ≠ "".
Proof.
  unfold recorded_under, recorded_fix.
  destruct (fix_ problem) as [f|], (ruleId problem) as [rule|]; try done.
  case_decide; [done |]. case_decide; [| done].
  intros [= <-]. by subst.
Qed.

Lemma validate_registry_facts (document : TextDocument) (library : ESLintModule)
    (s s' : Server) :
  validate document library s = (Normal tt, s') →
  (∀ u, u ≠ uri document → codeActions s' !! u = codeActions s !! u)
  ∧ ∃ diagnostics,
      outbox s' = push (outbox s) (SendDiagnostics (uri document) diagnostics)
      ∧ ∀ snapshot, codeActions s' !! uri document = Some snapshot →
          jm_wf snapshot
          ∧ getDocumentVersion (new_Fixes snapshot) = Normal (version document)
          ∧ ∀ key fix0, jm_get key snapshot = Some fix0 →
              documentVersion fix0 = version document
              ∧ ∃ diagnostic, diagnostic ∈ diagnostics
                  ∧ computeKey diagnostic = key
                  ∧ diag_code diagnostic = Some (autofix_ruleId fix0).
Proof.
  intros Hv. pose proof (validate_eq document library s) as Heq.
  destruct (new_CLIEngine library (options s)) as [cli|e]; [| congruence].
  destruct (executeOnText cli _ _) as [report|e]; [| congruence].
  cbn zeta in Heq. rewrite Heq in Hv. injection Hv as <-.
  set (problems := report_problems report).
  cbn [codeActions outbox set_outbox set_codeActions].
  assert (∀ key fix0, jm_get key (fixes_of document problems) = Some fix0 →
            documentVersion fix0 = version document
            ∧ ∃ diagnostic, diagnostic ∈ map makeDiagnostic problems
                ∧ computeKey diagnostic = key
                ∧ diag_code diagnostic = Some (autofix_ruleId fix0)) as Hentries.
  { intros key fix0 Hget. rewrite fixes_of_lookup in Hget.
    apply last_Some_elem_of, list_elem_of_omap in Hget as (p & Hp & Hrec).
    apply recorded_under_Some in Hrec as (-> & Hversion & Hrule & _).
    split; [done |]. exists (makeDiagnostic p). split_and!; [| done | done].
    apply list_elem_of_In, in_map. by apply list_elem_of_In. }
  split.
  - intros u Hu. unfold with_snapshot.
    destruct (fixes_of document problems);
      [by rewrite lookup_delete_ne | by rewrite lookup_insert_ne].
  - eexists. split; [reflexivity |].
    intros snapshot Hsnapshot.
    assert (snapshot = fixes_of document problems ∧ snapshot ≠ []) as [-> Hne].
    { unfold with_snapshot in Hsnapshot.
      destruct (fixes_of document problems) eqn:Hfixes.
      - by rewrite lookup_delete_eq in Hsnapshot.
      - rewrite lookup_insert_eq in Hsnapshot. by injection Hsnapshot as <-. }
    split_and!; [apply fixes_of_wf | | exact Hentries].
    destruct (fixes_of document problems) as [|[key fix0] rest] eqn:Hfixes; [done |].
    rewrite getDocumentVersion_nonempty. f_equal.
    apply (Hentries key). cbn. by rewrite decide_True.
Qed.

(** X3. After a validation that returned, the registry entries of the other
    documents are as before; the entry of the validated document, if there
    is one, has distinct keys, answers [getDocumentVersion] with the version
    of the validated document, and each of its fixes carries that version
    and sits under the key of a diagnostic that was just published, with
    the rule of the fix as its code. *)
Theorem validate_registry_snapshot (document : TextDocument) (library : ESLintModule)
    (s s' : Server) :
  validate document library s = (Normal tt, s') →
  (∀ u, u ≠ uri document → codeActions s' !! u = codeActions s !! u)
  ∧ ∃ diagnostics,
      outbox s' = push (outbox s) (SendDiagnostics (uri document) diagnostics)
      ∧ ∀ snapshot, codeActions s' !! uri document = Some snapshot →
          jm_wf snapshot
          ∧ getDocumentVersion (new_Fixes snapshot) = Normal (version document)
          ∧ ∀ key fix0, jm_get key snapshot = Some fix0 →
              documentVersion fix0 = version document
              ∧ ∃ diagnostic, diagnostic ∈ diagnostics
                  ∧ computeKey diagnostic = key
                  ∧ diag_code diagnostic = Some (autofix_ruleId fix0).
Proof. apply validate_registry_facts. Qed.

(** ** The overlap-free selection *)

Lemma jm_get_value {V} (k : string) (v : V) (m : JSMap V) :
  jm_get k m = Some v → v ∈ map snd m.
Proof.
  induction m as [|[k' v'] m IH]; cbn; [done |].
  case_decide.
  - intros [= ->]. apply list_elem_of_here.
  - intros Hget. by apply list_elem_of_further, IH.
Qed.

Lemma getAllSorted_elem_of (snapshot : JSMap AutoFix) (a : AutoFix) :
  a ∈ getAllSorted (new_Fixes snapshot) → a ∈ map snd snapshot.
Proof.
  unfold getAllSorted. rewrite Array_sort_perm.
  intros H. apply list_elem_of_omap in H as (k & _ & Hk).
  by apply jm_get_value in Hk.
Qed.

Lemma greedy_from_after (l : list AutoFix) (last : AutoFix) :
  Forall well_formed_edit l →
  Forall (fun x => end_offset last <= start_offset x) (greedy_from last l)
  ∧ StronglySorted (fun a b => end_offset a <= start_offset b) (greedy_from last l).
Proof.
  intros Hwf. revert last. induction Hwf as [|current rest Hcurrent _ IH]; intros last; cbn.
  - split; constructor.
  - case_decide as Hcmp; [apply IH |].
    destruct (IH current) as [Hafter Hsorted].
    split.
    + constructor; [lia |].
      eapply Forall_impl; [exact Hafter |]. unfold well_formed_edit in Hcurrent.
      cbn. intros x Hx. lia.
    + by constructor.
Qed.

Lemma StronglySorted_pairwise {A} (R : A → A → Prop) (l : list A) (i j : nat) (a b : A) :
  StronglySorted R l → (i < j)%nat → l !! i = Some a → l !! j = Some b → R a b.
Proof.
  intros Hsorted. revert i j. induction Hsorted as [|x l Hl IH Hx]; intros i j Hij Ha Hb.
  - by destruct i.
  - destruct j as [|j]; [lia |]. cbn in Hb. destruct i as [|i]; cbn in Ha.
    + injection Ha as <-. rewrite Forall_forall in Hx. apply Hx.
      by eapply list_elem_of_lookup_2.
    + apply (IH i j); [lia | done | done].
Qed.

Lemma greedy_pairwise_disjoint (l : list AutoFix) :
  Forall well_formed_edit l → pairwise_disjoint (greedy l).
Proof.
  intros Hwf i j a b.
  apply (StronglySorted_pairwise (fun a b => end_offset a <= start_offset b)).
  destruct Hwf as [|first rest Hfirst Hrest]; cbn; [constructor |].
  destruct (greedy_from_after rest first Hrest) as [Hafter Hsorted].
  by constructor.
Qed.

(** X4. When no recorded edit has its start offset after its end offset,
    the edits that [getOverlapFree] returns are pairwise disjoint: each one
    ends before every later one starts, not only before the next. *)
Theorem getOverlapFree_pairwise_disjoint (snapshot : JSMap AutoFix) :
  Forall (fun entry => well_formed_edit entry.2) snapshot →
  pairwise_disjoint (getOverlapFree (new_Fixes snapshot)).
Proof.
  intros Hwf. rewrite getOverlapFree_greedy. apply greedy_pairwise_disjoint.
  apply Forall_forall. intros a Ha. apply getAllSorted_elem_of in Ha.
  apply list_elem_of_In, in_map_iff in Ha as ([k v] & <- & Hin).
  rewrite Forall_forall in Hwf. apply (Hwf (k, v)). by apply list_elem_of_In.
Qed.

(** The scan of a list up to an edit does not depend on what follows the
    edit, and the edit is left out exactly when the edit kept last before
    it ends after its start. *)
Lemma greedy_from_app_cons (before after : list AutoFix) (x previous : AutoFix) :
  greedy_from previous (before ++ x :: after)
  = (greedy_from previous before
     ++ let k := default previous (last (greedy_from previous before)) in
        if decide (end_offset k > start_offset x)
        then greedy_from k after
        else x :: greedy_from x after)%list.
Proof.
  revert previous. induction before as [|current rest IH]; intros previous; [done |].
  cbn [app greedy_from]. case_decide as Hcmp; [apply IH |].
  rewrite IH. cbn [app]. f_equal. f_equal.
  rewrite last_cons. by destruct (last (greedy_from current rest)).
Qed.

Lemma greedy_app_cons (before after : list AutoFix) (x : AutoFix) :
  greedy (before ++ x :: after)
  = match last (greedy before) with
    | Some k =>
        if decide (end_offset k > start_offset x)
        then (greedy before ++ greedy_from k after)%list
        else (greedy before ++ x :: greedy_from x after)%list
    | None => x :: greedy_from x after
    end.
Proof.
  destruct before as [|first rest]; [done |].
  cbn [app greedy]. rewrite greedy_from_app_cons, last_cons. cbn zeta.
  destruct (last (greedy_from first rest)); cbn [default from_option id];
    by case_decide.
Qed.

(** X5. [getOverlapFree] is maximal.  For every edit of [getAllSorted]:
    what is kept of the edits before it is the overlap-free selection of
    those edits alone; the edit is kept if nothing is kept before it (so
    the first edit is always kept); otherwise it is left out exactly when
    the edit kept last before it ends after its start, that is, when
    adding it would make two neighbours of the result overlap. *)
Theorem getOverlapFree_maximal (snapshot : JSMap AutoFix)
    (before after : list AutoFix) (x : AutoFix) :
  getAllSorted (new_Fixes snapshot) = (before ++ x :: after)%list →
  ∃ kept_after,
    sublist kept_after after
    ∧ getOverlapFree (new_Fixes snapshot)
      = match last (greedy before) with
        | Some k =>
            if decide (end_offset k > start_offset x)
            then (greedy before ++ kept_after)%list
            else (greedy before ++ x :: kept_after)%list
        | None => x :: kept_after
        end
    ∧ (before = [] ↔ last (greedy before) = None).
Proof.
  intros Hsorted. rewrite getOverlapFree_greedy, Hsorted, greedy_app_cons.
  assert (before = [] ↔ last (greedy before) = None) as Hfirst.
  { destruct before as [|first rest]; [done |]. cbn [greedy].
    rewrite last_cons. split; [done |]. by destruct (last _). }
  destruct (last (greedy before)) as [k|].
  - case_decide.
    + exists (greedy_from k after). split_and!; [apply greedy_from_sublist | done..].
    + exists (greedy_from x after). split_and!; [apply greedy_from_sublist | done..].
  - exists (greedy_from x after). split_and!; [apply greedy_from_sublist | done..].
Qed.

(** ** The answers to the two requests *)

Lemma Array_map_createTextEdit (textDocument : TextDocument) (l : list AutoFix) :
  Array_map (createTextEdit (Some textDocument)) l
  = Normal (map (toTextEdit textDocument) l).
Proof. induction l as [|x l IH]; cbn; [done |]. by rewrite IH. Qed.

Lemma Array_map_createTextEdit_closed (l : list AutoFix) :
  l ≠ [] →
  Array_map (createTextEdit None) l
  = Throw (TypeError "Cannot read property 'positionAt' of undefined").
Proof. by destruct l. Qed.

Lemma getOverlapFree_not_nil (snapshot : JSMap AutoFix) :
  snapshot ≠ [] → getOverlapFree (new_Fixes snapshot) ≠ [].
Proof.
  intros Hne. rewrite getOverlapFree_greedy.
  destruct (getAllSorted (new_Fixes snapshot)) as [|first rest] eqn:Hsorted; [| done].
  apply (f_equal length) in Hsorted. unfold getAllSorted in Hsorted.
  rewrite (Permutation_length (Array_sort_perm _ _)) in Hsorted.
  rewrite omap_all_defined in Hsorted by apply jm_own_keys_defined.
  cbn in Hsorted. unfold Object_keys in Hsorted. rewrite length_map in Hsorted.
  by destruct snapshot.
Qed.

(** X6. The all-fixes request answers nothing for a document without a
    registry entry; for a document with fixes that is open it answers the
    version of the first recorded fix and the text edits of the overlap-free
    selection, in order; for a document with fixes that is not open it fails
    with a TypeError. *)
Theorem allFixes_answer (edits0 : option (JSMap AutoFix))
    (textDocument : option TextDocument) :
  allFixes edits0 textDocument
  = match edits0 with
    | None | Some [] => Normal None
    | Some (((_, first) :: _) as snapshot) =>
        match textDocument with
        | Some textDocument =>
            Normal (Some
              {| result_documentVersion := documentVersion first;
                 result_edits :=
                   map (toTextEdit textDocument) (getOverlapFree (new_Fixes snapshot)) |})
        | None => Throw (TypeError "Cannot read property 'positionAt' of undefined")
        end
    end.
Proof.
  unfold allFixes. destruct edits0 as [[|[key first] rest]|]; try done.
  replace (isEmpty (new_Fixes ((key, first) :: rest))) with false by done.
  cbn [negb]. rewrite getDocumentVersion_nonempty. cbn [mbind Completion_bind].
  destruct textDocument as [textDocument|].
  - by rewrite Array_map_createTextEdit.
  - by rewrite Array_map_createTextEdit_closed by by apply getOverlapFree_not_nil.
Qed.

Lemma scoped_loop_result (uri0 : string) (textDocument : TextDocument)
    (scoped : list AutoFix) (st : ScopedState) :
  scoped_loop uri0 (Some textDocument) scoped st
  = Normal
      {| scoped_result :=
           (scoped_result st ++ map (single_fix_command uri0 textDocument) scoped)%list;
         scoped_documentVersion :=
           from_option documentVersion (scoped_documentVersion st) (last scoped);
         scoped_ruleId :=
           from_option (fun e => Some (autofix_ruleId e)) (scoped_ruleId st) (last scoped) |}.
Proof.
  revert st. induction scoped as [|editInfo rest IH]; intros st.
  - cbn. rewrite app_nil_r. by destruct st.
  - cbn [scoped_loop createTextEdit mbind Completion_bind]. rewrite IH.
    cbn [scoped_result scoped_documentVersion scoped_ruleId map].
    unfold push. rewrite <- app_assoc. cbn [app].
    rewrite last_cons. by destruct (last rest).
Qed.

Lemma scoped_loop_closed (uri0 : string) (scoped : list AutoFix) (st : ScopedState) :
  scoped ≠ [] →
  scoped_loop uri0 None scoped st
  = Throw (TypeError "Cannot read property 'positionAt' of undefined").
Proof. by destruct scoped. Qed.

Lemma sorted_loop_documentVersion (ruleId : option string) (documentVersion0 : Z)
    (sorted : list AutoFix) :
  documentVersion0 ≠ -1 →
  sorted_documentVersion (sorted_loop ruleId documentVersion0 sorted) = documentVersion0.
Proof.
  intros Hne. unfold sorted_loop.
  set (st := {| sorted_documentVersion := documentVersion0; same := []; all := [] |}).
  assert (sorted_documentVersion st = documentVersion0) as Hst by done.
  clearbody st. revert st Hst.
  induction sorted as [|e rest IH]; intros st Hst; [done |].
  cbn [fold_left]. apply IH. cbn. by rewrite decide_False by congruence.
Qed.

(** X7. The answer to a code-action request for an open document with a
    registry entry: nothing if no context diagnostic has a recorded fix;
    otherwise one single-fix command per context diagnostic with a recorded
    fix, in the order of the diagnostics; then the same-fixes command if
    the same-rule selection for the rule of the last of them has two fixes
    or more, where that selection scans [getAllSorted] and keeps a fix of
    the rule only if it does not overlap the fix kept before it (two fixes
    of the rule that overlap give no such command); then the all-fixes
    command if the overlap-free selection has two fixes or more, carrying
    exactly the edits that the all-fixes request answers. *)
Theorem codeAction_answer (uri0 : string) (snapshot : JSMap AutoFix)
    (textDocument : TextDocument) (diagnostics : list Diagnostic) :
  let fixes := new_Fixes snapshot in
  let scoped := getScoped fixes diagnostics in
  codeActionCommands uri0 (Some snapshot) (Some textDocument) diagnostics
  = Normal
      match last scoped with
      | None => []
      | Some lastFix =>
          let documentVersion :=
            sorted_documentVersion
              (sorted_loop (Some (autofix_ruleId lastFix)) (documentVersion lastFix)
                 (getAllSorted fixes)) in
          let same := same_rule_selection (autofix_ruleId lastFix) (getAllSorted fixes) in
          let all := getOverlapFree fixes in
          (map (single_fix_command uri0 textDocument) scoped
           ++ (if decide (1 < length same)%nat then
                 [{| cmd_title := "Fix all " +:+ autofix_ruleId lastFix +:+ " problems";
                     cmd_command := "eslint.applySameFixes";
                     cmd_uri := uri0;
                     cmd_documentVersion := documentVersion;
                     cmd_edits := map (toTextEdit textDocument) same |}]
               else [])
           ++ (if decide (1 < length all)%nat then
                 [{| cmd_title := "Fix all auto-fixable problems";
                     cmd_command := "eslint.applyAllFixes";
                     cmd_uri := uri0;
                     cmd_documentVersion := documentVersion;
                     cmd_edits := map (toTextEdit textDocument) all |}]
               else []))%list
      end.
Proof.
  cbn zeta. unfold codeActionCommands.
  destruct (isEmpty (new_Fixes snapshot)) eqn:Hempty.
  { apply isEmpty_nil in Hempty as ->. by rewrite getScoped_nil. }
  rewrite scoped_loop_result. cbn [mbind Completion_bind].
  cbn [scoped_result scoped_documentVersion scoped_ruleId app].
  destruct (last (getScoped (new_Fixes snapshot) diagnostics)) as [lastFix|] eqn:Hlast.
  2: { apply last_None in Hlast. rewrite Hlast. cbn. by rewrite decide_False by lia. }
  rewrite decide_True.
  2: { rewrite length_map. destruct (getScoped _ _); [done | cbn; lia]. }
  cbn [from_option].
  destruct (sorted_loop_selections (autofix_ruleId lastFix) (documentVersion lastFix)
              (getAllSorted (new_Fixes snapshot))) as [-> ->].
  rewrite <- getOverlapFree_greedy. rewrite !Array_map_createTextEdit.
  cbn [render_undefined].
  repeat case_decide; cbn [mbind Completion_bind]; unfold push;
    rewrite <- ?app_assoc, ?app_nil_r; reflexivity.
Qed.

(** X8. A code-action request for a document that is not open (as after a
    close, which leaves the registry entry) answers nothing when no context
    diagnostic has a recorded fix and fails with a TypeError otherwise. *)
Theorem codeAction_not_open (uri0 : string) (edits0 : option (JSMap AutoFix))
    (diagnostics : list Diagnostic) :
  codeActionCommands uri0 edits0 None diagnostics
  = match edits0 with
    | None => Normal []
    | Some snapshot =>
        match getScoped (new_Fixes snapshot) diagnostics with
        | [] => Normal []
        | _ => Throw (TypeError "Cannot read property 'positionAt' of undefined")
        end
    end.
Proof.
  unfold codeActionCommands. destruct edits0 as [snapshot|]; [| done].
  destruct (isEmpty (new_Fixes snapshot)) eqn:Hempty.
  { apply isEmpty_nil in Hempty as ->. by rewrite getScoped_nil. }
  destruct (getScoped (new_Fixes snapshot) diagnostics) as [|x rest] eqn:Hscoped.
  - cbn. by rewrite decide_False by lia.
  - by rewrite scoped_loop_closed.
Qed.

(** ** Handlers that complete normally *)





















Lemma validateMany_document_eq (b : nat) (document : TextDocument) (s : Server) :
  validateMany_document b document s
  = (Normal tt,
     match batch_job b s document with
     | Some job => set_batches (alter one_more b) (set_pending (fun q => push q job) s)
     | None => s
     end).
Proof.
  unfold validateMany_document, batch_job, mbind, M_bind.
  unfold bind at 1. rewrite ignoreTextDocument_eq.
  destruct (supportedLanguages (languageId document)); cbn [negb orb]; [| done].
  unfold bind, gets.
  destruct (document2Library s !! uri document) eqn:E; cbn; rewrite ?E; reflexivity.
Qed.




(** ** Starting a batch *)

Lemma alter_last {A} (f : A → A) (l : list A) (x : A) :
  alter f (length l) (l ++ [x])%list = (l ++ [f x])%list.
Proof.
  replace (List.length l) with (List.length l + 0)%nat by lia.
  by rewrite alter_app_r.
Qed.

Lemma lookup_last {A} (l : list A) (x : A) : (l ++ [x])%list !! length l = Some x.
Proof. by apply list_lookup_middle. Qed.

Lemma batch_job_document2Library (b : nat) (s s' : Server) (document : TextDocument) :
  document2Library s' = document2Library s →
  batch_job b s' document = batch_job b s document.
Proof. intros H. unfold batch_job. by rewrite H. Qed.

(** The loop of [validateMany], on a state whose last batch is the batch of
    the call. *)
Lemma validateMany_loop (docs : list TextDocument) (bs : list Batch) (x : Batch)
    (s : Server) :
  batches s = (bs ++ [x])%list →
  forEach docs (validateMany_document (length bs)) s
  = (Normal tt,
     let jobs := omap (batch_job (length bs) s) docs in
     set_batches (fun _ => (bs ++ [more (length jobs) x])%list)
       (set_pending (fun q => (q ++ jobs)%list) s)).
Proof.
  revert x s. induction docs as [|document rest IH]; intros x s Hs.
  - cbn. f_equal. destruct s, x. cbn in *. subst.
    unfold set_batches, set_pending, more. cbn. by rewrite app_nil_r.
  - cbn [forEach]. unfold mbind, M_bind. unfold bind at 1.
    rewrite validateMany_document_eq.
    cbn [omap list_omap].
    fold (@omap list _ _ _ (batch_job (length bs) s) rest).
    destruct (batch_job (length bs) s document) as [job|] eqn:Hjob.
    + rewrite (IH (one_more x)).
      2: { cbn [batches set_batches set_pending]. rewrite Hs. apply alter_last. }
      f_equal. cbn zeta.
      erewrite (list_omap_ext _ (batch_job (length bs) s) rest rest).
      2: { apply Forall_Forall2_diag, Forall_forall. intros d _.
           by apply batch_job_document2Library. }
      destruct s, x. unfold set_batches, set_pending, push, more, one_more. cbn.
      rewrite <- app_assoc. cbn. repeat f_equal. lia.
    + by apply IH.
Qed.

Lemma more_empty_batch (n : nat) :
  more n empty_batch = {| tracker := []; status := None; waiting := n; settled := false |}.
Proof. unfold more, empty_batch. cbn. f_equal. lia. Qed.

Lemma validateMany_eq (docs : list TextDocument) (s : Server) :
  let jobs := omap (batch_job (length (batches s)) s) docs in
  validateMany docs s
  = (Normal tt,
     set_outbox
       (fun o => match jobs with
                 | [] => push o (StatusNotification Status.ok)
                 | _ => o
                 end)
       (set_batches (fun bs => (bs ++ [started_batch (length jobs)])%list)
          (set_pending (fun q => (q ++ jobs)%list) s))).
Proof.
  cbn zeta. unfold validateMany, mbind, M_bind.
  unfold bind at 1. cbn [gets].
  unfold bind at 1. cbn [modify].
  unfold bind at 1.
  rewrite (validateMany_loop docs (batches s) empty_batch) by done.
  cbn zeta.
  erewrite (list_omap_ext _ (batch_job (length (batches s)) s) docs docs).
  2: { apply Forall_Forall2_diag, Forall_forall. intros d _.
       by apply batch_job_document2Library. }
  set (jobs := omap (batch_job (length (batches s)) s) docs).
  rewrite more_empty_batch.
  unfold bind at 1, get_batch at 1. cbn [gets batches set_batches set_pending].
  rewrite lookup_last. cbn [default from_option id waiting].
  destruct jobs as [|job jobs'] eqn:Hjobs.
  - cbn [length]. rewrite decide_True by done.
    unfold settle, all_fulfilled, tracker_sendErrors, get_batch, set_status, send,
      mbind, M_bind, bind, modify, gets.
    destruct s. unfold set_batches, set_pending, set_outbox, push. cbn.
    repeat (rewrite ?alter_last, ?lookup_last; cbn).
    reflexivity.
  - cbn [length]. rewrite decide_False by done.
    destruct s. reflexivity.
Qed.

(** X10. [validateMany] registers one callback for every document that is
    not ignored, in the order of the documents, each on the library promise
    recorded for its URI, and opens a batch that waits for as many
    attempts; it sends nothing, except that a batch without attempts
    publishes ok at once; it leaves the registry, the dedup stores, the
    settings and the library promises as they were. *)
Theorem validateMany_schedules (docs : list TextDocument) (s : Server) :
  let jobs := omap (batch_job (length (batches s)) s) docs in
  let s' := exec (validateMany docs) s in
  eval (validateMany docs) s = Normal tt
  ∧ pending s' = (pending s ++ jobs)%list
  ∧ batches s' = (batches s ++ [started_batch (length jobs)])%list
  ∧ outbox s' = match jobs with
                | [] => push (outbox s) (StatusNotification Status.ok)
                | _ => outbox s
                end
  ∧ codeActions s' = codeActions s
  ∧ noConfigReported s' = noConfigReported s
  ∧ configErrorReported s' = configErrorReported s
  ∧ document2Library s' = document2Library s
  ∧ settings s' = settings s.
Proof.
  cbn zeta. unfold exec, eval. rewrite validateMany_eq. cbn. done.
Qed.

(** ** Document events *)

Lemma document_event_eq (trigger : RunValues) (document : TextDocument) (s : Server) :
  (run ← settings_run;
   ignore ← ignoreTextDocument document;
   if negb (bool_decide (run = trigger)) || ignore then ret tt
   else validateSingle document) s
  = after_document_event trigger document s.
Proof.
  unfold after_document_event, single_job, settings_run, ignoreTextDocument,
    validateSingle, mbind, M_bind, bind, gets, modify, throw, ret.
  destruct (settings s) as [[[eslint0|]]|]; try reflexivity.
  destruct (decide (run eslint0 = trigger)) as [Hrun|Hrun].
  - rewrite (bool_decide_eq_true_2 _ Hrun).
    destruct (supportedLanguages (languageId document)); [|reflexivity].
    destruct (document2Library s !! uri document) eqn:E; cbn; rewrite ?E; reflexivity.
  - rewrite (bool_decide_eq_false_2 _ Hrun). reflexivity.
Qed.

(** X11. A content change schedules a validation of the document only when
    the run setting is onType, a save only when it is onSave, and either
    only for a document that is not ignored: the callback is registered on
    the library promise of the document, and the missing promise that
    [validateSingle] cannot handle is never reached.  While no settings
    have arrived both events fail with a TypeError and change nothing. *)
Theorem document_events_schedule (document : TextDocument) (s : Server) :
  onDidChangeContent document s = after_document_event onType document s
  ∧ onDidSave document s = after_document_event onSave document s.
Proof. split; apply document_event_eq. Qed.

Lemma onDidClose_eq (document : TextDocument) (s : Server) :
  onDidClose document s
  = (Normal tt,
     match single_job s document with
     | Some _ =>
         set_outbox (fun o => push o (SendDiagnostics (uri document) []))
           (set_document2Library (delete (uri document)) s)
     | None => s
     end).
Proof.
  unfold onDidClose, single_job, ignoreTextDocument, send, mbind, M_bind, bind,
    gets, modify, ret.
  destruct (supportedLanguages (languageId document)); [|reflexivity].
  destruct (document2Library s !! uri document) eqn:E; cbn; rewrite ?E; reflexivity.
Qed.

Lemma single_job_closed (document : TextDocument) (s : Server) :
  single_job (exec (onDidClose document) s) document = None.
Proof.
  unfold exec. rewrite onDidClose_eq. cbn [snd].
  destruct (single_job s document) as [job|] eqn:E; [|exact E].
  unfold single_job. cbn [document2Library set_outbox set_document2Library].
  rewrite lookup_delete_eq. by destruct (supportedLanguages _).
Qed.

(** X12. Once a document is closed it is ignored: a later change or save
    of it leaves the state as it is, whatever the run setting, and a batch
    registers no attempt for it.  The jobs queued for it before the close
    stay queued. *)
Theorem closed_document_is_ignored (document : TextDocument) (s : Server) :
  let s' := exec (onDidClose document) s in
  eval (ignoreTextDocument document) s' = Normal true
  ∧ exec (onDidChangeContent document) s' = s'
  ∧ exec (onDidSave document) s' = s'
  ∧ pending (exec (validateMany [document]) s') = pending s'
  ∧ pending s' = pending s.
Proof.
  cbn zeta. pose proof (single_job_closed document s) as Hclosed.
  set (s' := exec (onDidClose document) s) in *.
  assert (Hevent : ∀ trigger, (after_document_event trigger document s').2 = s').
  { intros trigger. unfold after_document_event. rewrite Hclosed.
    destruct (settings s') as [[[eslint0|]]|]; try reflexivity.
    cbn. by destruct (decide _). }
  split; [|split; [|split; [|split]]].
  - unfold eval, ignoreTextDocument, mbind, M_bind, bind, gets, ret. cbn.
    unfold single_job in Hclosed.
    destruct (supportedLanguages (languageId document)); [|reflexivity].
    destruct (document2Library s' !! uri document); [discriminate|reflexivity].
  - unfold exec, onDidChangeContent. rewrite document_event_eq. apply Hevent.
  - unfold exec, onDidSave. rewrite document_event_eq. apply Hevent.
  - unfold exec. rewrite validateMany_eq. cbn.
    replace (batch_job (length (batches s')) s' document) with (@None Job).
    + cbn. apply app_nil_r.
    + unfold batch_job. unfold single_job in Hclosed.
      destruct (supportedLanguages (languageId document)); [|reflexivity].
      by destruct (document2Library s' !! uri document).
  - subst s'. unfold exec. rewrite onDidClose_eq. cbn [snd].
    by destruct (single_job s document).
Qed.

(** ** The file name in a configuration error *)

Lemma strip_prefix_app (l s : string) : strip_prefix l (l +:+ s) = Some s.
Proof.
  induction l as [|c l IH]; [done|].
  simpl. by rewrite decide_True.
Qed.

Lemma string_length_app (a b : string) :
  String.length (a +:+ b) = (String.length a + String.length b)%nat.
Proof. induction a as [|c a IH]; simpl; [done|]. by f_equal. Qed.

Lemma substring_app_l (a b : string) : substring 0 (String.length a) (a +:+ b) = a.
Proof.
  induction a as [|c a IH]; simpl.
  - by destruct b.
  - by f_equal.
Qed.

Lemma consumed_app (a b : string) : consumed (a +:+ b) b = a.
Proof.
  unfold consumed. rewrite string_length_app.
  replace (String.length a + String.length b - String.length b)%nat
    with (String.length a) by lia.
  apply substring_app_l.
Qed.

Lemma star_match_stop {R} (p : ascii → bool) (s : string) (k : string → option R) :
  stops p s → star_match p s k = k s.
Proof. destruct s as [|c s]; cbn; [done|]. by intros ->. Qed.

Lemma yields_star_total {R} (Q : R → Prop) (p : ascii → bool) (s : string)
    (k : string → option R) :
  (∀ rest, yields Q (k rest)) → yields Q (star_match p s k).
Proof.
  intros Hk. induction s as [|c s IH]; cbn; [apply Hk|].
  destruct (p c); [|apply Hk].
  destruct IH as (r & -> & Hr). by exists r.
Qed.

Lemma yields_star_greedy {R} (Q : R → Prop) (p : ascii → bool) (a b : string)
    (k : string → option R) :
  string_forall (fun c => p c = true) a → stops p b →
  yields Q (k b) → yields Q (star_match p (a +:+ b) k).
Proof.
  intros Ha Hb Hk. induction a as [|c a IH]; simpl.
  - by rewrite star_match_stop.
  - destruct Ha as [-> Ha]. destruct (IH Ha) as (r & -> & Hr). by exists r.
Qed.

(** The greedy run gives back one character when the continuation fails
    after the whole run. *)
Lemma yields_star_back {R} (Q : R → Prop) (p : ascii → bool) (a b : string)
    (ch : ascii) (k : string → option R) :
  string_forall (fun c => p c = true) a → p ch = true → stops p b →
  k b = None → yields Q (k (String ch b)) →
  yields Q (star_match p (a +:+ String ch b) k).
Proof.
  intros Ha Hch Hb Hnone Hk. induction a as [|c a IH]; simpl.
  - by rewrite Hch, star_match_stop, Hnone.
  - destruct Ha as [-> Ha]. destruct (IH Ha) as (r & -> & Hr). by exists r.
Qed.

Lemma star_match_post {R} (Q : R → Prop) (p : ascii → bool) (s : string)
    (k : string → option R) (r : R) :
  (∀ rest r, k rest = Some r → Q r) → star_match p s k = Some r → Q r.
Proof.
  intros Hk. induction s as [|c s IH]; cbn; [apply Hk|].
  destruct (p c); [|apply Hk].
  destruct (star_match p s k) as [r'|]; [|apply Hk].
  intros [= <-]. by apply IH.
Qed.

Lemma star_match_is_Some {R} (p : ascii → bool) (s : string) (k : string → option R) :
  is_Some (k s) → is_Some (star_match p s k).
Proof.
  intros Hk. destruct s as [|c s]; cbn; [done|].
  destruct (p c); [|done]. by destruct (star_match p s k).
Qed.

(** The run backtracks to a place where the continuation succeeds, if
    there is one. *)
Lemma yields_star_reach {R} (Q : R → Prop) (p : ascii → bool) (a b : string)
    (k : string → option R) :
  string_forall (fun c => p c = true) a →
  (∀ rest r, k rest = Some r → Q r) → is_Some (k b) →
  yields Q (star_match p (a +:+ b) k).
Proof.
  intros Ha Hpost Hk.
  assert (Hsome : is_Some (star_match p (a +:+ b) k)).
  { induction a as [|c a IH]; simpl.
    - by apply star_match_is_Some.
    - destruct Ha as [-> Ha]. destruct (IH Ha) as [r ->]. by exists r. }
  destruct Hsome as [r Hr]. exists r. split; [done|].
  by apply (star_match_post Q p (a +:+ b) k).
Qed.

Lemma RegExp_exec_here (r : RegExp) (s : string) (Q : list string → Prop) :
  yields Q (re_match r s [] (fun rest captures => Some (consumed s rest :: captures))) →
  yields Q (RegExp_exec r s).
Proof. intros (m & Hm & HQ). exists m. split; [|done]. destruct s; cbn [RegExp_exec]; by rewrite Hm. Qed.

Lemma three_matches_captures (i : nat) (filename : string) (o : option (list string)) :
  yields (captures_at i filename) o →
  ∃ matches, three_matches o = Some matches ∧ nth i matches "" = filename.
Proof.
  intros (m & -> & Hlen & Hnth). exists m. split; [|done].
  unfold three_matches. by rewrite decide_True.
Qed.

Lemma starts_black_stops (s : string) : starts_black s → stops is_space s.
Proof. by destruct s. Qed.

Lemma starts_black_app (a b : string) : starts_black a → stops is_space (a +:+ b).
Proof. by destruct a. Qed.

(** The regular expression of line 388 on a message of its form. *)
Lemma exec_cannot_read_config (path detail : string) :
  starts_black path → string_forall (fun c => is_dot c = true) path →
  yields (captures_at 1 path)
    (RegExp_exec re_cannot_read_config
       ("Cannot read config file: " +:+ path +:+ LF +:+ "Error: " +:+ detail)).
Proof.
  intros Hblack Hdot. apply RegExp_exec_here.
  set (message := "Cannot read config file: " +:+ path +:+ LF +:+ "Error: " +:+ detail).
  unfold re_cannot_read_config, re_spaces1, re_any_group. cbn [re_match].
  change message with
    ("Cannot read config file:" +:+ String " " (path +:+ LF +:+ "Error: " +:+ detail)) at 1.
  rewrite strip_prefix_app.
  change (is_space " ") with true. cbn match.
  rewrite star_match_stop by by apply starts_black_app.
  apply yields_star_greedy; [done|done|].
  change (LF +:+ "Error: " +:+ detail) with ((LF +:+ "Error:") +:+ String " " detail).
  rewrite strip_prefix_app.
  change (is_space " ") with true. cbn match.
  apply yields_star_total. intros rest.
  apply yields_star_total. intros rest'.
  eexists. split; [reflexivity|].
  split; [done|]. cbn. apply consumed_app.
Qed.

(** The regular expression of line 393 on a message of its form. *)
Lemma exec_rule_configuration (path indent rule rest : string) :
  string_forall (fun c => is_dot c = true) path →
  string_forall (fun c => is_space c = true) indent →
  string_forall (fun c => is_dot c = true) rule →
  yields (captures_at 1 path)
    (RegExp_exec re_rule_configuration
       (path +:+ ":" +:+ LF +:+ indent +:+ "Configuration for rule " +:+ DQUOTE
          +:+ rule +:+ DQUOTE +:+ " is " +:+ rest)).
Proof.
  intros Hpath Hindent Hrule. apply RegExp_exec_here.
  set (tail := DQUOTE +:+ " is " +:+ rest).
  set (line := indent +:+ "Configuration for rule " +:+ DQUOTE +:+ rule +:+ tail).
  unfold re_rule_configuration, re_any_group. cbn [re_match].
  change (path +:+ ":" +:+ LF +:+ line) with (path +:+ String ":" (LF +:+ line)).
  apply yields_star_back; [done|done|done|done|].
  rewrite consumed_app.
  change (String ":" (LF +:+ line)) with ((":" +:+ LF) +:+ line) at 1.
  rewrite strip_prefix_app. subst line.
  apply yields_star_greedy; [done|done|].
  change ("Configuration for rule " +:+ DQUOTE +:+ rule +:+ tail)
    with (("Configuration for rule " +:+ DQUOTE) +:+ rule +:+ tail).
  rewrite strip_prefix_app.
  apply yields_star_reach; [done| |].
  - intros rest' r. destruct (strip_prefix _ rest'); [|done].
    intros [= <-]. by split.
  - subst tail.
    change (DQUOTE +:+ " is " +:+ rest) with ((DQUOTE +:+ " is ") +:+ rest).
    by rewrite strip_prefix_app.
Qed.

(** The regular expression of line 398 on a message of its form. *)
Lemma exec_cannot_find_module (name file rest : string) :
  string_forall (fun c => is_not_quote c = true) name →
  starts_black file → string_forall (fun c => is_dot c = true) file →
  stops is_dot rest →
  yields (captures_at 2 file)
    (RegExp_exec re_cannot_find_module
       ("Cannot find module '" +:+ name +:+ "'" +:+ LF +:+ "Referenced from: "
          +:+ file +:+ rest)).
Proof.
  intros Hname Hblack Hfile Hrest. apply RegExp_exec_here.
  set (message := "Cannot find module '" +:+ name +:+ "'" +:+ LF
                    +:+ "Referenced from: " +:+ file +:+ rest).
  unfold re_cannot_find_module, re_spaces1, re_any_group. cbn [re_match].
  change message with
    ("Cannot find module '" +:+ name +:+ "'" +:+ LF +:+ "Referenced from: "
       +:+ file +:+ rest) at 1.
  rewrite strip_prefix_app.
  apply yields_star_greedy; [done|done|].
  change ("'" +:+ LF +:+ "Referenced from: " +:+ file +:+ rest)
    with (("'" +:+ LF +:+ "Referenced from:") +:+ String " " (file +:+ rest)).
  rewrite strip_prefix_app.
  change (is_space " ") with true. cbn match.
  rewrite star_match_stop by by apply starts_black_app.
  apply yields_star_greedy; [done|done|].
  eexists. split; [reflexivity|].
  split; [done|]. cbn. apply consumed_app.
Qed.

Lemma tryHandleConfigError_first (error : ESLintError) (document : TextDocument)
    (library : ESLintModule) (message filename : string) :
  err_message error = Some message → message ≠ "" →
  yields (captures_at 1 filename) (RegExp_exec re_cannot_read_config message) →
  tryHandleConfigError error document library
  = handleFileName error document library filename.
Proof.
  intros Hmessage Hne Hexec. unfold tryHandleConfigError. cbn [get_property]. rewrite bind_lift_Normal.
  rewrite Hmessage, decide_False by done.
  by destruct (three_matches_captures _ _ _ Hexec) as (matches & -> & ->).
Qed.

(** X13. An error whose message reads
    [Cannot read config file: <path>], a line feed, [Error: <detail>],
    with a path on one line that does not begin with white space, is
    treated as a configuration error of the file <path>, whatever the
    detail is. *)
Theorem config_error_cannot_read (error : ESLintError) (document : TextDocument)
    (library : ESLintModule) (path detail : string) :
  err_message error
    = Some ("Cannot read config file: " +:+ path +:+ LF +:+ "Error: " +:+ detail) →
  starts_black path → string_forall (fun c => is_dot c = true) path →
  tryHandleConfigError error document library
  = handleFileName error document library path.
Proof.
  intros Hmessage Hblack Hdot.
  apply (tryHandleConfigError_first _ _ _ _ _ Hmessage); [done|].
  by apply exec_cannot_read_config.
Qed.

(** X14. An error whose message reads [<path>:], a line feed, an
    indentation, [Configuration for rule "<rule>" is ...], with path and
    rule on one line each, is treated as a configuration error of the file
    <path>, unless the message also holds a match of the first pattern. *)
Theorem config_error_rule_configuration (error : ESLintError)
    (document : TextDocument) (library : ESLintModule)
    (path indent rule rest : string) :
  let message := path +:+ ":" +:+ LF +:+ indent +:+ "Configuration for rule "
                   +:+ DQUOTE +:+ rule +:+ DQUOTE +:+ " is " +:+ rest in
  err_message error = Some message →
  string_forall (fun c => is_dot c = true) path →
  string_forall (fun c => is_space c = true) indent →
  string_forall (fun c => is_dot c = true) rule →
  RegExp_exec re_cannot_read_config message = None →
  tryHandleConfigError error document library
  = handleFileName error document library path.
Proof.
  intros message Hmessage Hpath Hindent Hrule Hfirst. subst message.
  unfold tryHandleConfigError. cbn [get_property]. rewrite bind_lift_Normal.
  rewrite Hmessage, decide_False by by destruct path.
  rewrite Hfirst. cbn [three_matches].
  by destruct (three_matches_captures _ _ _
                 (exec_rule_configuration path indent rule rest Hpath Hindent Hrule))
    as (matches & -> & ->).
Qed.

(** X15. An error whose message reads [Cannot find module '<name>'], a
    line feed, [Referenced from: <file>] up to the end of the line, is
    treated as a configuration error of the referencing file, not of the
    module, unless the message also holds a match of one of the first two
    patterns. *)
Theorem config_error_cannot_find_module (error : ESLintError)
    (document : TextDocument) (library : ESLintModule) (name file rest : string) :
  let message := "Cannot find module '" +:+ name +:+ "'" +:+ LF
                   +:+ "Referenced from: " +:+ file +:+ rest in
  err_message error = Some message →
  string_forall (fun c => is_not_quote c = true) name →
  starts_black file → string_forall (fun c => is_dot c = true) file →
  stops is_dot rest →
  RegExp_exec re_cannot_read_config message = None →
  RegExp_exec re_rule_configuration message = None →
  tryHandleConfigError error document library
  = handleFileName error document library file.
Proof.
  intros message Hmessage Hname Hblack Hfile Hrest Hfirst Hsecond. subst message.
  unfold tryHandleConfigError. cbn [get_property]. rewrite bind_lift_Normal.
  rewrite Hmessage, decide_False by done.
  rewrite Hfirst, Hsecond. cbn [three_matches].
  by destruct (three_matches_captures _ _ _
                 (exec_cannot_find_module name file rest Hname Hblack Hfile Hrest))
    as (matches & -> & ->).
Qed.

(** ** Configuration errors are reported once per file *)

Global Instance config_marks_kept_preorder : PreOrder config_marks_kept.
Proof. split; [by intros s f | intros s1 s2 s3 H12 H23 f H; by apply H23, H12]. Qed.

Lemma handleFileName_eq (err : ESLintError) (document : TextDocument)
    (library : ESLintModule) (filename : string) (s : Server) :
  handleFileName err document library filename s
  = (Normal (Some Status.warn),
     match configErrorReported s !! filename with
     | Some _ => s
     | None =>
         set_configErrorReported <[filename := library]>
           (set_outbox
              (fun o => (o ++ config_error_report (getMessage err document) filename
                                (documents s))%list)
              s)
     end).
Proof.
  unfold handleFileName, config_error_report, send, mbind, M_bind, bind, gets,
    modify, ret, lift.
  cbn [getMessage_caught get_property].
  destruct (configErrorReported s !! filename) eqn:E; [reflexivity|].
  cbn [documents set_outbox].
  destruct (documents_get (Uri_file filename) (documents s)); destruct s;
    unfold set_configErrorReported, set_outbox, push; cbn;
    by rewrite <- ?app_assoc.
Qed.

Lemma config_marks_kept_frame (s s' : Server) :
  configErrorReported s' = configErrorReported s → config_marks_kept s s'.
Proof. intros Heq f. by rewrite Heq. Qed.

Lemma config_marks_kept_handle (e : Event) :
  (∀ changes, e ≠ DidChangeWatchedFiles changes) →
  preserves config_marks_kept (handle e).
Proof.
  apply preserves_handle;
    try (intros; apply config_marks_kept_frame; reflexivity).
  - apply _.
  - intros s filename library f. cbn [configErrorReported set_configErrorReported].
    destruct (decide (filename = f)) as [->|Hne].
    + by rewrite lookup_insert_eq.
    + by rewrite lookup_insert_ne.
  - intros document diagnostic problem s. unfold exec, recordCodeAction.
    destruct (fix_ problem), (ruleId problem) as [rule|]; try reflexivity.
    case_decide; [reflexivity |].
    unfold mbind, M_bind, bind, gets, modify. by intros ?.
  - intros err document library s. unfold exec. apply config_marks_kept_frame.
    destruct err as [err|v]; [| done].
    rewrite tryHandleNoConfig_eq. case_decide; [| done].
    by destruct (noConfigReported s !! uri document).
Qed.

(** X16. The first configuration error of a file writes a warning to the
    console, shows the message to the user unless the configuration file is
    itself an open document, and marks the file; as long as no watched file
    changes, whatever else happens, every later configuration error of that
    file, for any document and with any message, answers warn and sends
    nothing. *)
Theorem config_error_reported_once (events : list Event)
    (err err' : ESLintError) (document document' : TextDocument)
    (library library' : ESLintModule) (filename : string) (s : Server) :
  Forall (fun e => ∀ changes, e ≠ DidChangeWatchedFiles changes) events →
  configErrorReported s !! filename = None →
  let s1 := exec (handleFileName err document library filename) s in
  let s2 := run_events s1 events in
  outbox s1 = (outbox s
               ++ config_error_report (getMessage err document) filename (documents s))%list
  ∧ handleFileName err' document' library' filename s2
    = (Normal (Some Status.warn), s2).
Proof.
  intros Hevents Hfresh. cbn zeta. unfold exec.
  rewrite (handleFileName_eq err), Hfresh. cbn [snd]. split; [done|].
  match goal with |- context [run_events ?x events] => set (s1 := x) end.
  assert (config_marks_kept s1 (run_events s1 events)) as Hkept.
  { apply preserves_run_events; [apply _|].
    eapply Forall_impl; [exact Hevents|]. intros e He.
    by apply config_marks_kept_handle. }
  destruct (Hkept filename) as [lib Hlib].
  { subst s1. cbn [configErrorReported set_configErrorReported].
    by rewrite lookup_insert_eq. }
  rewrite handleFileName_eq. by rewrite Hlib.
Qed.

(** ** A change of a watched file *)

Global Instance same_noConfigReported_preorder : PreOrder same_noConfigReported.
Proof.
  split; [by intros s | intros s1 s2 s3 H12 H23].
  unfold same_noConfigReported in *. congruence.
Qed.

Global Instance config_marks_within_preorder : PreOrder config_marks_within.
Proof.
  split; [intros s; unfold config_marks_within; reflexivity | intros s1 s2 s3 H12 H23].
  unfold config_marks_within in *. etrans; [exact H23 | exact H12].
Qed.

Global Instance same_config_mark_preorder (filename : string) :
  PreOrder (same_config_mark filename).
Proof.
  split; [by intros s | intros s1 s2 s3 H12 H23].
  unfold same_config_mark in *. congruence.
Qed.

Lemma exec_modify_bind {A} (f : Server → Server) (m : M A) (s : Server) :
  exec (modify f;; m) s = exec m (f s).
Proof. reflexivity. Qed.

(** X17. A change of a watched file forgets which documents were reported
    as having no configuration, also when the handler fails half way: the
    next no-config error of any document sends the request to the client
    again. *)
Theorem watched_change_resets_noConfig (changes : list string) (err : ESLintError)
    (document : TextDocument) (library : ESLintModule) (s : Server) :
  isNoConfigFoundError err = Normal true →
  let s' := exec (onDidChangeWatchedFiles changes) s in
  noConfigReported s' = ∅
  ∧ tryHandleNoConfig err document library s'
    = (Normal (Some Status.warn),
       set_noConfigReported <[uri document := library]>
         (set_outbox
            (fun o => push o (NoConfigRequest (getMessage err document) (uri document)))
            s')).
Proof.
  intros Herr. cbn zeta.
  assert (noConfigReported (exec (onDidChangeWatchedFiles changes) s) = ∅) as Hreset.
  { unfold onDidChangeWatchedFiles. rewrite exec_modify_bind.
    assert (same_noConfigReported (set_noConfigReported (fun _ => ∅) s)
              (exec (forEach changes onDidChangeWatchedFiles_change;;
                     docs ← gets documents; validateMany docs)
                 (set_noConfigReported (fun _ => ∅) s))) as Hsame; [|exact Hsame].
    apply preserves_onDidChangeWatchedFiles_rest; try apply _; intros; reflexivity. }
  split; [exact Hreset|].
  rewrite tryHandleNoConfig_eq, decide_True, Hreset by done. by rewrite lookup_empty.
Qed.

Lemma same_config_mark_change (filename change_uri : string) :
  uriToFilePath change_uri ≠ Some filename →
  preserves (same_config_mark filename) (onDidChangeWatchedFiles_change change_uri).
Proof.
  intros Hne s. unfold exec, onDidChangeWatchedFiles_change.
  destruct (uriToFilePath change_uri) as [fspath|]; [|reflexivity].
  case_decide; [reflexivity|].
  unfold mbind, M_bind, bind, gets, lift, try_catch, modify, ret.
  destruct (configErrorReported s !! fspath) as [library|]; [|reflexivity].
  destruct (new_CLIEngine library (options s)) as [cli|e]; [|reflexivity].
  destruct (executeOnText cli _ _); [|reflexivity].
  unfold same_config_mark. cbn. apply lookup_delete_ne. congruence.
Qed.

(** X18. A change of watched files reports no configuration file that was
    not reported before, and leaves alone the mark of every configuration
    file that is not among the changed files. *)
Theorem watched_change_marks (changes : list string) (s : Server) :
  let s' := exec (onDidChangeWatchedFiles changes) s in
  configErrorReported s' ⊆ configErrorReported s
  ∧ ∀ filename,
      (∀ change_uri, change_uri ∈ changes → uriToFilePath change_uri ≠ Some filename) →
      configErrorReported s' !! filename = configErrorReported s !! filename.
Proof.
  cbn zeta. split.
  - apply (preserves_onDidChangeWatchedFiles config_marks_within);
      try (intros; unfold config_marks_within; reflexivity).
    intros s0 filename. apply delete_subseteq.
  - intros filename Hother. unfold onDidChangeWatchedFiles.
    rewrite exec_modify_bind.
    assert (preserves (same_config_mark filename)
              (forEach changes onDidChangeWatchedFiles_change;;
               docs ← gets documents; validateMany docs)) as Hrest.
    { apply (preserves_bind (same_config_mark filename)).
      - apply (preserves_forEach_Forall (same_config_mark filename)), Forall_forall.
        intros change_uri Hin.
        apply same_config_mark_change, Hother. exact Hin.
      - intros _. apply (preserves_bind (same_config_mark filename));
          [apply preserves_gets; apply _|]. intros docs.
        apply (preserves_validateMany (same_config_mark filename));
          intros; reflexivity. }
    exact (Hrest (set_noConfigReported (fun _ => ∅) s)).
Qed.

(** X19. When the one changed file is a reported configuration file: if
    the engine of the library that reported it cannot be constructed, the
    error escapes, the no-config marks are reset and no validation is
    started; otherwise all open documents are validated again, after the
    mark of the file was cleared if linting an empty text in its directory
    succeeds, and with the mark kept if that throws. *)
Theorem watched_change_probe (change_uri fspath : string) (library : ESLintModule)
    (s : Server) :
  uriToFilePath change_uri = Some fspath →
  path_dirname fspath ≠ "" →
  configErrorReported s !! fspath = Some library →
  let s0 := set_noConfigReported (fun _ => ∅) s in
  onDidChangeWatchedFiles [change_uri] s
  = match new_CLIEngine library (options s) with
    | Throw e => (Throw e, s0)
    | Normal cli =>
        validateMany (documents s)
          match executeOnText cli ""
                  (Some (path_join (path_dirname fspath) "___test___.js")) with
          | Normal _ => set_configErrorReported (delete fspath) s0
          | Throw _ => s0
          end
    end.
Proof.
  intros Hpath Hdir Hmark. cbn zeta.
  unfold onDidChangeWatchedFiles, onDidChangeWatchedFiles_change. cbn [forEach].
  rewrite Hpath, decide_False by done.
  unfold mbind, M_bind, bind, gets, lift, try_catch, modify, ret.
  cbn [configErrorReported set_noConfigReported options]. rewrite Hmark.
  cbn [configErrorReported set_noConfigReported set_configErrorReported options
       documents].
  destruct (new_CLIEngine library (options s)) as [cli|e]; [|reflexivity].
  by destruct (executeOnText cli _ _).
Qed.

End Server.

(** * Examples on concrete inputs *)

(** C1.  A batch over two documents: validating the first throws an error
    that no classifier of the batch handles, validating the second throws a
    no-config error.  When the attempts complete in that order the batch
    publishes warn, although the unhandled error was shown; in the other
    order it publishes error. *)
Theorem validateMany_status_depends_on_order :
  let run := run_events sample_uriToFilePath sample_Uri_file sample_dirname sample_join in
  let s :=
    sample_server
      [sample_document "file:///a.js"; sample_document "file:///b.js"]
      [("file:///a.js", Fulfilled (Some (sample_library (Throw generic_error))));
       ("file:///b.js", Fulfilled (Some (sample_library (Throw no_config_error))))] in
  let changed :=
    DidChangeConfiguration {| eslint := Some {| run := onType; eslint_options := None |} |} in
  outbox (run s [changed; RunJob 0; RunJob 0])
  = [NoConfigRequest "No ESLint configuration found." "file:///b.js";
     ShowErrorMessage "boom";
     StatusNotification Status.warn]
  ∧ outbox (run s [changed; RunJob 1; RunJob 0])
    = [NoConfigRequest "No ESLint configuration found." "file:///b.js";
       ShowErrorMessage "boom";
       StatusNotification Status.error].
Proof. split; vm_compute; reflexivity. Qed.

(** C2, as stated, fails: on the empty snapshot [getDocumentVersion] throws
    instead of returning an empty result. *)
Lemma getDocumentVersion_empty_throws :
  getDocumentVersion (new_Fixes [])
  = Throw (TypeError "Cannot read property 'documentVersion' of undefined")
  ∧ ¬ (∃ v, getDocumentVersion (new_Fixes []) = Normal v).
Proof. split; [reflexivity |]. intros [v H]. discriminate H. Qed.

(** C3, as stated, fails: after a validation that recorded a fix, closing
    the document leaves the entry of its URI in the fix registry; what is
    deleted is the entry in the document-to-library table. *)
Lemma onDidClose_keeps_registry_entry :
  let document := sample_document "file:///a.js" in
  let library := sample_library (Normal (sample_report [sample_problem "semi" 1 6 5 5])) in
  let s := sample_server [document] [("file:///a.js", Fulfilled (Some library))] in
  let validated := exec (validate sample_uriToFilePath document library) s in
  let closed := exec (onDidClose document) validated in
  codeActions closed !! "file:///a.js"
  = Some [("[0,5,0,5]-semi",
           {| label := "Fix this semi problem"; documentVersion := 1;
              autofix_ruleId := "semi";
              edit := {| range := (5, 5); text := ";" |} |})]
  ∧ codeActions closed !! "file:///a.js" ≠ None
  ∧ document2Library closed !! "file:///a.js" = None.
Proof. split_and!; [vm_compute; reflexivity | vm_compute; discriminate | vm_compute; reflexivity]. Qed.

(** C4 at a snapshot of four fixes. *)
Lemma getAllSorted_sorted_witness :
  let snapshot :=
    [("[3,0,3,1]-semi", sample_fix "semi" 10 20);
     ("[0,0,0,0]-eol", sample_fix "eol" 0 5);
     ("[0,0,0,1]-bom", sample_fix "bom" 0 0);
     ("[2,4,2,9]-quotes", sample_fix "quotes" 10 12)] in
  jm_wf snapshot
  ∧ getAllSorted (new_Fixes snapshot) ≡ₚ map snd snapshot
  ∧ StronglySorted sorts_before (getAllSorted (new_Fixes snapshot))
  ∧ getAllSorted (new_Fixes snapshot)
    = [sample_fix "bom" 0 0; sample_fix "eol" 0 5;
       sample_fix "quotes" 10 12; sample_fix "semi" 10 20].
Proof.
  intros snapshot.
  assert (jm_wf snapshot) as Hwf.
  { unfold jm_wf. eapply (bool_decide_unpack _). vm_compute. exact I. }
  destruct (getAllSorted_sorted snapshot Hwf) as (Hperm & Hsorted & _).
  split_and!; [exact Hwf | exact Hperm | exact Hsorted | reflexivity].
Defined.



(** C7 at a document that is validated in a batch, then closed, between the
    two classifications. *)
Lemma noConfig_request_sent_once_witness :
  let document := sample_document "file:///a.js" in
  let library := sample_library (Throw no_config_error) in
  let s := sample_server [document] [("file:///a.js", Fulfilled (Some library))] in
  let tagged :=
    {| err_messageTemplate := Some "no-config-found";
       err_message := Some ("CLI: No configuration" +:+ LF +:+ "found") |} in
  let events :=
    [DidChangeConfiguration {| eslint := Some {| run := onSave; eslint_options := None |} |};
     RunJob 0; DidClose document] in
  let handler := tryHandleNoConfig sample_uriToFilePath in
  let first := handler tagged document library s in
  let between :=
    run_events sample_uriToFilePath sample_Uri_file sample_dirname sample_join
      first.2 events in
  let second := handler no_config_error document library between in
  isNoConfigFoundError tagged = Normal true
  ∧ isNoConfigFoundError no_config_error = Normal true
  ∧ noConfigReported s !! uri document = None
  ∧ Forall (fun e => ∀ changes, e ≠ DidChangeWatchedFiles changes) events
  ∧ first.1 = Normal (Some Status.warn)
  ∧ outbox first.2 = [NoConfigRequest "No configuration found" "file:///a.js"]
  ∧ second.1 = Normal (Some Status.warn)
  ∧ outbox second.2 = outbox between
  ∧ noConfigRequests "file:///a.js" (outbox second.2) = 1%nat.
Proof.
  intros document library s tagged events handler first between second.
  assert (Forall (fun e => ∀ changes, e ≠ DidChangeWatchedFiles changes) events) as Hevents.
  { subst events. repeat constructor; intros changes; discriminate. }
  destruct (noConfig_request_sent_once sample_uriToFilePath sample_Uri_file
              sample_dirname sample_join tagged no_config_error document document
              library library events s eq_refl eq_refl eq_refl eq_refl Hevents)
    as (H1 & H2 & H3 & H4 & H5).
  split_and!; try done.
Defined.

(** C9 at two problems on one position with one rule: the second fix
    replaces the first, and a problem without a fix records nothing. *)
Lemma computeKey_recordCodeAction_witness :
  let document := sample_document "file:///a.js" in
  let s := sample_server [document] [] in
  let p1 := sample_problem "semi" 1 6 5 5 in
  let p2 :=
    {| line := 1; column := 6; endLine := None; endColumn := None;
       severity := 1; ruleId := Some "semi"; message := "Extra semicolon.";
       fix_ := Some {| range := (5, 6); text := "" |} |} in
  let p3 :=
    {| line := 1; column := 6; endLine := None; endColumn := None;
       severity := 1; ruleId := Some "semi"; message := "Extra semicolon.";
       fix_ := None |} in
  let s1 := exec (recordCodeAction document (makeDiagnostic p1) p1) s in
  let s2 := exec (recordCodeAction document (makeDiagnostic p2) p2) s1 in
  computeKey (makeDiagnostic p1) = computeKey (makeDiagnostic p2)
  ∧ (∃ edits2,
       codeActions s2 !! "file:///a.js" = Some edits2
       ∧ jm_get "[0,5,0,5]-semi" edits2
         = Some {| label := "Fix this semi problem"; documentVersion := 1;
                   autofix_ruleId := "semi";
                   edit := {| range := (5, 6); text := "" |} |}
       ∧ Object_keys edits2 = ["[0,5,0,5]-semi"])
  ∧ recordCodeAction document (makeDiagnostic p3) p3 s = (Normal tt, s).
Proof.
  intros document s p1 p2 p3 s1 s2.
  destruct (computeKey_recordCodeAction document s) as (_ & Hsame & Hrecord & Hnoop).
  assert (computeKey (makeDiagnostic p1) = computeKey (makeDiagnostic p2)) as Hkey
    by (apply Hsame; reflexivity).
  split; [exact Hkey |]. split.
  - destruct (Hrecord (makeDiagnostic p1) p1 (makeDiagnostic p2) p2
                {| range := (5, 6); text := "" |} "semi" Hkey eq_refl eq_refl)
      as (edits2 & Hlookup & Hget & _ & Hkeys & Hpresent & _); [discriminate |].
    exists edits2. split_and!; [exact Hlookup | exact Hget |].
    rewrite Hkeys; [reflexivity |].
    apply (Hpresent {| range := (5, 5); text := ";" |} "semi"); [reflexivity .. | discriminate].
  - apply Hnoop. by left.
Defined.

(** C10 at a snapshot with three fixes of one rule, two of them overlapping,
    and a context of three diagnostics of which the last has no fix. *)
Lemma codeAction_same_fixes_witness :
  let diagnostics :=
    [sample_diagnostic 1 2 "quotes"; sample_diagnostic 2 7 "semi";
     sample_diagnostic 9 9 "semi"] in
  let textDocument := Some (sample_document "file:///a.js") in
  ∃ commands,
    codeActionCommands "file:///a.js" (Some sample_snapshot) textDocument diagnostics
    = Normal commands
    ∧ last (getScoped (new_Fixes sample_snapshot) diagnostics)
      = Some (sample_fix "semi" 40 41)
    ∧ same_rule_selection "semi" (getAllSorted (new_Fixes sample_snapshot))
      = [sample_fix "semi" 4 6; sample_fix "semi" 40 41]
    ∧ (∃ c, c ∈ commands ∧ cmd_command c = "eslint.applySameFixes")
    ∧ (∀ c, c ∈ commands → cmd_command c = "eslint.applySameFixes" →
         cmd_title c = "Fix all semi problems").
Proof.
  intros diagnostics textDocument.
  destruct (codeActionCommands_open "file:///a.js" (Some sample_snapshot)
              (sample_document "file:///a.js") diagnostics) as [commands Hcommands].
  exists commands.
  destruct (codeAction_same_fixes "file:///a.js" (Some sample_snapshot) textDocument
              diagnostics commands Hcommands) as (_ & _ & Hiff & Htitle).
  assert (last (getScoped (new_Fixes sample_snapshot) diagnostics)
          = Some (sample_fix "semi" 40 41)) as Hlast by reflexivity.
  split_and!; [exact Hcommands | exact Hlast | reflexivity | |].
  - apply Hiff. exists (sample_fix "semi" 40 41). split; [exact Hlast |].
    vm_compute. lia.
  - intros c Hc Hcmd. destruct (Htitle c Hc Hcmd) as (lastFix & Hl & Ht & _).
    change (last (getScoped (new_Fixes sample_snapshot) diagnostics) = Some lastFix) in Hl.
    rewrite Hlast in Hl. injection Hl as <-. exact Ht.
Defined.


(** Scenario D of the specification: a batch over three documents, the
    first of which throws an error that no classifier of the batch handles.
    Diagnostics are published for the other two, the tracker is flushed once
    and the batch publishes error. *)
Example validateMany_scenario_D :
  let run := run_events sample_uriToFilePath sample_Uri_file sample_dirname sample_join in
  let library := sample_library (Normal (sample_report [sample_problem "semi" 1 6 5 5])) in
  let s :=
    sample_server
      [sample_document "file:///a.js"; sample_document "file:///b.js";
       sample_document "file:///c.js"]
      [("file:///a.js", Fulfilled (Some (sample_library (Throw generic_error))));
       ("file:///b.js", Fulfilled (Some library));
       ("file:///c.js", Fulfilled (Some library))] in
  let changed :=
    DidChangeConfiguration {| eslint := Some {| run := onType; eslint_options := None |} |} in
  let diagnostics := [makeDiagnostic (sample_problem "semi" 1 6 5 5)] in
  outbox (run s [changed; RunJob 0; RunJob 0; RunJob 0])
  = [SendDiagnostics "file:///b.js" diagnostics;
     SendDiagnostics "file:///c.js" diagnostics;
     ShowErrorMessage "boom";
     StatusNotification Status.error].
Proof. vm_compute. reflexivity. Qed.

(** A validation that is pending when its document is closed still runs:
    the diagnostics of the closed document are published after the empty
    list, and its fixes are recorded. *)
Example pending_validation_survives_close :
  let run := run_events sample_uriToFilePath sample_Uri_file sample_dirname sample_join in
  let document := sample_document "file:///a.js" in
  let library := sample_library (Normal (sample_report [sample_problem "semi" 1 6 5 5])) in
  let s :=
    set_settings (Some {| eslint := Some {| run := onSave; eslint_options := None |} |}) "{}"
      (sample_server [document] [("file:///a.js", Fulfilled (Some library))]) in
  let final := run s [DidSave document; DidClose document; RunJob 0] in
  outbox final
  = [SendDiagnostics "file:///a.js" [];
     SendDiagnostics "file:///a.js" [makeDiagnostic (sample_problem "semi" 1 6 5 5)];
     StatusNotification Status.ok]
  ∧ Object_keys <$> codeActions final !! "file:///a.js" = Some ["[0,5,0,5]-semi"].
Proof. split; vm_compute; reflexivity. Qed.

(** ** The further properties at concrete inputs *)

(** X1 at a message with the CLI prefix and a line feed, and at a clean
    message. *)
Lemma getMessage_sanitized_witness :
  let document := sample_document "file:///a.js" in
  let tagged :=
    {| err_messageTemplate := None;
       err_message := Some ("CLI: No configuration" +:+ LF +:+ "found") |} in
  getMessage sample_uriToFilePath tagged document = "No configuration found"
  ∧ string_forall (fun c => code_unit c ≠ 10%N)
      (getMessage sample_uriToFilePath tagged document)
  ∧ getMessage sample_uriToFilePath generic_error document = "boom".
Proof.
  intros document tagged.
  destruct (getMessage_sanitized sample_uriToFilePath tagged document
              ("CLI: No configuration" +:+ LF +:+ "found") eq_refl) as (Hclean & _ & _).
  destruct (getMessage_sanitized sample_uriToFilePath generic_error document
              "boom" eq_refl) as (_ & _ & Hsame).
  split_and!; [reflexivity | exact Hclean |].
  apply Hsame; [|reflexivity].
  cbn. repeat split; discriminate.
Defined.

(** X3 at a report with one fixable problem. *)
Lemma validate_registry_snapshot_witness :
  let document := sample_document "file:///a.js" in
  let library := sample_library (Normal (sample_report [sample_problem "semi" 1 6 5 5])) in
  let s := sample_server [document] [("file:///a.js", Fulfilled (Some library))] in
  let run := validate sample_uriToFilePath document library s in
  run.1 = Normal tt
  ∧ Object_keys (default [] (codeActions run.2 !! "file:///a.js")) = ["[0,5,0,5]-semi"]
  ∧ ∃ diagnostics,
      outbox run.2 = [SendDiagnostics "file:///a.js" diagnostics]
      ∧ ∀ snapshot, codeActions run.2 !! "file:///a.js" = Some snapshot →
          getDocumentVersion (new_Fixes snapshot) = Normal 1.
Proof.
  intros document library s run.
  assert (run = (Normal tt, run.2)) as Hrun by (vm_compute; reflexivity).
  destruct (validate_registry_snapshot sample_uriToFilePath document library s run.2 Hrun)
    as (_ & diagnostics & Hout & Hsnapshot).
  split_and!; [vm_compute; reflexivity | vm_compute; reflexivity |].
  exists diagnostics. split; [exact Hout |].
  intros snapshot Hlookup. by destruct (Hsnapshot snapshot Hlookup) as (_ & Hversion & _).
Defined.

(** X4 at the sample snapshot. *)
Lemma getOverlapFree_pairwise_disjoint_witness :
  Forall (fun entry => well_formed_edit entry.2) sample_snapshot
  ∧ pairwise_disjoint (getOverlapFree (new_Fixes sample_snapshot))
  ∧ getOverlapFree (new_Fixes sample_snapshot)
    = [sample_fix "semi" 4 6; sample_fix "quotes" 20 25; sample_fix "semi" 40 41].
Proof.
  assert (Forall (fun entry => well_formed_edit entry.2) sample_snapshot) as Hwf.
  { repeat constructor; unfold well_formed_edit; cbn; lia. }
  split_and!; [exact Hwf | | reflexivity].
  apply (getOverlapFree_pairwise_disjoint sample_snapshot Hwf).
Defined.

(** X5 at the sample snapshot: the second edit in the order of
    [getAllSorted] starts before the first one ends and is left out. *)
Lemma getOverlapFree_maximal_witness :
  getAllSorted (new_Fixes sample_snapshot)
  = [sample_fix "semi" 4 6; sample_fix "semi" 5 6;
     sample_fix "quotes" 20 25; sample_fix "semi" 40 41]
  ∧ ∃ kept_after,
      sublist kept_after [sample_fix "quotes" 20 25; sample_fix "semi" 40 41]
      ∧ getOverlapFree (new_Fixes sample_snapshot) = sample_fix "semi" 4 6 :: kept_after.
Proof.
  split; [reflexivity |].
  destruct (getOverlapFree_maximal sample_snapshot
              [sample_fix "semi" 4 6] [sample_fix "quotes" 20 25; sample_fix "semi" 40 41]
              (sample_fix "semi" 5 6) eq_refl) as (kept_after & Hsub & Hkept & _).
  exists kept_after. split; [exact Hsub | exact Hkept].
Defined.


(** X13 at a message of the first form. *)
Lemma config_error_cannot_read_witness :
  let document := sample_document "file:///a.js" in
  let library := sample_library (Normal None) in
  let error :=
    {| err_messageTemplate := None;
       err_message := Some ("Cannot read config file: /w/.eslintrc" +:+ LF
                              +:+ "Error: Unexpected token") |} in
  tryHandleConfigError sample_uriToFilePath sample_Uri_file error document library
  = handleFileName sample_uriToFilePath sample_Uri_file error document library
      "/w/.eslintrc".
Proof.
  intros document library error.
  apply (config_error_cannot_read sample_uriToFilePath sample_Uri_file error document
           library "/w/.eslintrc" "Unexpected token").
  - reflexivity.
  - reflexivity.
  - cbn. repeat split.
Defined.

(** X14 at a message of the second form. *)
Lemma config_error_rule_configuration_witness :
  let document := sample_document "file:///a.js" in
  let library := sample_library (Normal None) in
  let TAB := String "009" EmptyString in
  let error :=
    {| err_messageTemplate := None;
       err_message := Some ("/w/.eslintrc:" +:+ LF +:+ TAB +:+ "Configuration for rule "
                              +:+ DQUOTE +:+ "semi" +:+ DQUOTE +:+ " is invalid") |} in
  tryHandleConfigError sample_uriToFilePath sample_Uri_file error document library
  = handleFileName sample_uriToFilePath sample_Uri_file error document library
      "/w/.eslintrc".
Proof.
  intros document library TAB error.
  apply (config_error_rule_configuration sample_uriToFilePath sample_Uri_file error
           document library "/w/.eslintrc" TAB "semi" "invalid").
  - reflexivity.
  - cbn. repeat split.
  - cbn. repeat split.
  - cbn. repeat split.
  - vm_compute. reflexivity.
Defined.

(** X15 at a message of the third form. *)
Lemma config_error_cannot_find_module_witness :
  let document := sample_document "file:///a.js" in
  let library := sample_library (Normal None) in
  let error :=
    {| err_messageTemplate := None;
       err_message := Some ("Cannot find module 'eslint-config-x'" +:+ LF
                              +:+ "Referenced from: /w/.eslintrc") |} in
  tryHandleConfigError sample_uriToFilePath sample_Uri_file error document library
  = handleFileName sample_uriToFilePath sample_Uri_file error document library
      "/w/.eslintrc".
Proof.
  intros document library error.
  apply (config_error_cannot_find_module sample_uriToFilePath sample_Uri_file error
           document library "eslint-config-x" "/w/.eslintrc" "").
  - reflexivity.
  - cbn. repeat split.
  - reflexivity.
  - cbn. repeat split.
  - exact I.
  - vm_compute. reflexivity.
  - vm_compute. reflexivity.
Defined.

(** X16 at a configuration file that is not open, with a save, a callback
    and a close between the two errors. *)
Lemma config_error_reported_once_witness :
  let document := sample_document "file:///a.js" in
  let library := sample_library (Throw generic_error) in
  let s := sample_server [document] [("file:///a.js", Fulfilled (Some library))] in
  let events := [DidSave document; RunJob 0; DidClose document] in
  let s1 :=
    exec (handleFileName sample_uriToFilePath sample_Uri_file generic_error document
            library "/w/.eslintrc") s in
  let s2 :=
    run_events sample_uriToFilePath sample_Uri_file sample_dirname sample_join s1 events in
  Forall (fun e => ∀ changes, e ≠ DidChangeWatchedFiles changes) events
  ∧ outbox s1 = [ConsoleWarn "boom"; ShowInformationMessage "boom"]
  ∧ handleFileName sample_uriToFilePath sample_Uri_file no_config_error document
      library "/w/.eslintrc" s2
    = (Normal (Some Status.warn), s2).
Proof.
  intros document library s events s1 s2.
  assert (Forall (fun e => ∀ changes, e ≠ DidChangeWatchedFiles changes) events) as Hevents.
  { subst events. repeat constructor; intros changes; discriminate. }
  destruct (config_error_reported_once sample_uriToFilePath sample_Uri_file
              sample_dirname sample_join events generic_error no_config_error
              document document library library "/w/.eslintrc" s Hevents eq_refl)
    as (Hfirst & Hlater).
  split_and!; [exact Hevents | exact Hfirst | exact Hlater].
Defined.

(** X17 at a document that was reported before the change. *)
Lemma watched_change_resets_noConfig_witness :
  let document := sample_document "file:///a.js" in
  let library := sample_library (Throw no_config_error) in
  let s := sample_server [document] [("file:///a.js", Fulfilled (Some library))] in
  let handler := tryHandleNoConfig sample_uriToFilePath in
  let reported := exec (handler no_config_error document library) s in
  let changed :=
    exec (onDidChangeWatchedFiles sample_uriToFilePath sample_dirname sample_join
            ["file:///w/.eslintrc"]) reported in
  is_Some (noConfigReported reported !! "file:///a.js")
  ∧ noConfigReported changed = ∅
  ∧ noConfigRequests "file:///a.js"
      (outbox (exec (handler no_config_error document library) changed)) = 2%nat.
Proof.
  intros document library s handler reported changed.
  destruct (watched_change_resets_noConfig sample_uriToFilePath sample_dirname
              sample_join ["file:///w/.eslintrc"] no_config_error document library
              reported eq_refl) as (Hreset & Hagain).
  split_and!; [by eexists | exact Hreset |].
  subst handler. unfold exec at 1. cbn beta. fold changed in Hagain.
  rewrite Hagain. vm_compute. reflexivity.
Defined.

(** X19 at a reported configuration file whose probe succeeds. *)
Lemma watched_change_probe_witness :
  let document := sample_document "file:///a.js" in
  let library := sample_library (Normal None) in
  let s :=
    set_configErrorReported <["/w/.eslintrc" := library]>
      (sample_server [document] [("file:///a.js", Fulfilled (Some library))]) in
  let s' :=
    exec (onDidChangeWatchedFiles sample_uriToFilePath sample_dirname sample_join
            ["file:///w/.eslintrc"]) s in
  configErrorReported s' !! "/w/.eslintrc" = None
  ∧ length (batches s') = 1%nat.
Proof.
  intros document library s s'.
  pose proof (watched_change_probe sample_uriToFilePath sample_dirname sample_join
                "file:///w/.eslintrc" "/w/.eslintrc" library s eq_refl) as Hprobe.
  cbn zeta in Hprobe. subst s'. unfold exec. rewrite Hprobe.
  - split; vm_compute; reflexivity.
  - discriminate.
  - vm_compute. reflexivity.
Defined.
